(** * 2D Jacobi stencil (Vitis HLS kernel and its C test bench)

    A shallow embedding of [src/fpga/hls/jacobi_hls.cpp] and
    [src/fpga/hls/tb_jacobi_hls.cpp].

    - C [int] is a 32-bit signed integer, carried as a [Z]; an operation
      whose mathematical result leaves the range is undefined behaviour and
      is reported as a fault.
    - C [float] is IEEE-754 binary32 and [double] is binary64, both as
      [spec_float] with the operations of the standard library's
      [SpecFloat] (round to nearest, ties to even).  Every [float]
      operation rounds to binary32, as with [FLT_EVAL_METHOD] 0.
    - A buffer ([const float *], [float *], [std::vector<float>]) is a list
      of floats; an access outside the list is a fault.
    - The kernel reads [in] and writes [out]; the two are separate buffers,
      as in the test bench, so the kernel is a function from the two
      buffers to the new contents of [out]. *)

From Stdlib Require Import ZArith Lia SpecFloat Ascii String.
From stdpp Require Import base tactics option list numbers strings.

Local Open Scope Z_scope.

(** ** Faults and the result monad *)

Inductive fault : Type :=
  | SignedOverflow   (* an int operation left the range of int *)
  | OutOfBounds      (* an access outside a buffer *)
  | LengthError.     (* std::vector asked for more than max_size() *)

Inductive res (A : Type) : Type :=
  | Ok (a : A)
  | Fault (f : fault).
Arguments Ok {A} a.
Arguments Fault {A} f.

#[global] Instance res_ret : MRet res := λ A a, Ok a.
#[global] Instance res_bind : MBind res := λ A B k m,
  match m with
  | Ok a => k a
  | Fault f => Fault f
  end.

(** A computation that ends in a fault. *)
Definition faulty {A : Type} (r : res A) : Prop := ∃ f, r = Fault f.

(** Two computations that end alike: in the same fault, or in results
    related by [R]. *)
Definition res_rel {A : Type} (R : A → A → Prop) (r1 r2 : res A) : Prop :=
  match r1, r2 with
  | Ok a, Ok b => R a b
  | Fault f, Fault g => f = g
  | _, _ => False
  end.

(** ** 32-bit signed integers *)

Definition INT_MIN : Z := - 2 ^ 31.
Definition INT_MAX : Z := 2 ^ 31 - 1.

Definition int_ok (z : Z) : res Z :=
  if decide (INT_MIN ≤ z ≤ INT_MAX) then Ok z else Fault SignedOverflow.

Definition int_add (a b : Z) : res Z := int_ok (a + b).
Definition int_sub (a b : Z) : res Z := int_ok (a - b).
Definition int_mul (a b : Z) : res Z := int_ok (a * b).

(** ** Floats *)

Definition float32 : Type := spec_float.
Definition float64 : Type := spec_float.

Definition f32_add : float32 → float32 → float32 := SFadd 24 128.
Definition f32_mul : float32 → float32 → float32 := SFmul 24 128.
Definition f64_add : float64 → float64 → float64 := SFadd 53 1024.

(** The literals [0.0f], [1.0f] and [0.25f]. *)
Definition f32_zero : float32 := S754_zero false.
Definition f32_one : float32 := S754_finite false 8388608 (-23).
Definition f32_quarter : float32 := S754_finite false 8388608 (-25).

(** The largest finite float, [FLT_MAX]. *)
Definition FLT_MAX : float32 := S754_finite false 16777215 104.

(** The implicit conversion of a [float] to [double]: every binary32 value
    is a binary64 value; only the representation is re-normalised. *)
Definition f64_of_f32 (x : float32) : float64 :=
  match x with
  | S754_finite s m e => binary_round 53 1024 s m e
  | _ => x
  end.

Definition f64_zero : float64 := S754_zero false.

(** [c] is a binary32 value whose fourfold sum stays finite: not a finite
    value of magnitude [2^126] or more. *)
Definition no_overflow4 (c : float32) : Prop :=
  match c with
  | S754_finite _ m e => bounded 24 128 m e = true ∧ e ≤ 102
  | _ => True
  end.

(** [m / 2^n] rounded to the nearest integer, ties to even: what the
    shifter of [SpecFloat] computes for a mantissa [m] that loses [n]
    bits. *)
Definition rne_shift (m n : Z) : Z :=
  let q := m / 2 ^ n in
  let rem := m mod 2 ^ n in
  if 2 * rem <? 2 ^ n then q
  else if 2 ^ n <? 2 * rem then q + 1
  else q + q mod 2.

(** The state of the shifter after [n] steps on the mantissa [m]. *)
Definition shifted (m n : Z) (x : shr_record) : Prop :=
  shr_m x = m / 2 ^ n ∧
  (shr_r x = true ↔ 2 ^ n ≤ 2 * (m mod 2 ^ n)) ∧
  (shr_s x = true ↔ m mod 2 ^ n ≠ 0 ∧ 2 * (m mod 2 ^ n) ≠ 2 ^ n).

(** ** Buffers *)

Definition load (buf : list float32) (idx : Z) : res float32 :=
  if decide (0 ≤ idx) then
    match buf !! Z.to_nat idx with
    | Some v => Ok v
    | None => Fault OutOfBounds
    end
  else Fault OutOfBounds.

Definition store (buf : list float32) (idx : Z) (v : float32)
  : res (list float32) :=
  if decide (0 ≤ idx < Z.of_nat (length buf)) then
    Ok (<[Z.to_nat idx := v]> buf)
  else Fault OutOfBounds.

(** ** Counted loops

    [for_int hi body s] is [for (int k = 0; k < hi; k++) body], threading
    the state [s].  The counter stays below [hi], so [k++] cannot leave the
    range of [int]. *)

Fixpoint for_from {St : Type} (lo : Z) (cnt : nat)
    (body : Z → St → res St) (s : St) : res St :=
  match cnt with
  | O => Ok s
  | S c => s' ← body lo s; for_from (lo + 1) c body s'
  end.

Definition for_int {St : Type} (hi : Z) (body : Z → St → res St) (s : St)
  : res St :=
  for_from 0 (Z.to_nat hi) body s.

(** ** The kernel: [jacobi2d_hls] *)

Module Kernel.

(** [i == 0 || j == 0 || i == N-1 || j == M-1], evaluated left to right
    with short circuit. *)
Definition is_boundary (N M i j : Z) : res bool :=
  if decide (i = 0) then Ok true
  else if decide (j = 0) then Ok true
  else
    n1 ← int_sub N 1;
    if decide (i = n1) then Ok true
    else
      m1 ← int_sub M 1;
      Ok (bool_decide (j = m1)).

(** [r*M + c], the linear index of a cell as the kernel computes it. *)
Definition lin (M r c : Z) : res Z :=
  t ← int_mul r M; int_add t c.

(** The body of [Col_Loop] for one cell [(i, j)]. *)
Definition Col_body (inp : list float32) (N M i j : Z) (out : list float32)
  : res (list float32) :=
  idx ← lin M i j;
  b ← is_boundary N M i j;
  if b : bool then
    v ← load inp idx;
    store out idx v
  else
    im1 ← int_sub i 1; ku ← lin M im1 j; up ← load inp ku;
    ip1 ← int_add i 1; kd ← lin M ip1 j; down ← load inp kd;
    jm1 ← int_sub j 1; kl ← lin M i jm1; left ← load inp kl;
    jp1 ← int_add j 1; kr ← lin M i jp1; right ← load inp kr;
    store out idx
      (f32_mul f32_quarter (f32_add (f32_add (f32_add up down) left) right)).

Definition Col_Loop (inp : list float32) (N M i : Z) (out : list float32)
  : res (list float32) :=
  for_int M (Col_body inp N M i) out.

Definition jacobi2d_hls (inp out : list float32) (N M : Z)
  : res (list float32) :=
  for_int N (Col_Loop inp N M) out.

End Kernel.

Export Kernel.

(** ** The C library functions the test bench calls *)

Module Libc.

(** [isspace] in the C locale. *)
Definition is_space (c : ascii) : bool :=
  let n := nat_of_ascii c in
  (n =? 32)%nat || ((9 <=? n)%nat && (n <=? 13)%nat).

Definition digit_val (c : ascii) : option Z :=
  let n := nat_of_ascii c in
  if ((48 <=? n)%nat && (n <=? 57)%nat)%bool
  then Some (Z.of_nat n - 48) else None.

Fixpoint skip_space (s : string) : string :=
  match s with
  | String c s' => if is_space c then skip_space s' else s
  | EmptyString => s
  end.

(** The value of the longest prefix of decimal digits, on top of [acc]. *)
Fixpoint digits_val (s : string) (acc : Z) : Z :=
  match s with
  | String c s' =>
      match digit_val c with
      | Some d => digits_val s' (10 * acc + d)
      | None => acc
      end
  | EmptyString => acc
  end.

(** [atoi]: optional white space, optional sign, decimal digits; anything
    after the digits is ignored and no digits give 0.  A value outside
    the range of [int] is undefined behaviour. *)
Definition atoi (s : string) : res Z :=
  match skip_space s with
  | String "-"%char s' => int_ok (- digits_val s' 0)
  | String "+"%char s' => int_ok (digits_val s' 0)
  | s' => int_ok (digits_val s' 0)
  end.

Definition digit_char (d : Z) : ascii := ascii_of_nat (48 + Z.to_nat d).

(** The last [w] decimal digits of [n], most significant first. *)
Fixpoint dec_fixed (w : nat) (n : Z) : string :=
  match w with
  | O => EmptyString
  | S w' => dec_fixed w' (n / 10) +:+ String (digit_char (n mod 10)) EmptyString
  end.

(** The decimal digits of [n ≥ 0] without leading zeros ("0" for 0);
    [fuel] bounds the number of digits. *)
Fixpoint dec_nat (fuel : nat) (n : Z) : string :=
  match fuel with
  | O => EmptyString
  | S f =>
      (if decide (n < 10) then EmptyString else dec_nat f (n / 10))
      +:+ String (digit_char (n mod 10)) EmptyString
  end.

Definition dec_unsigned (n : Z) : string :=
  dec_nat (S (Z.to_nat (Z.log2 n))) n.

(** Conversion [%d]. *)
Definition fmt_d (n : Z) : string :=
  if decide (n < 0) then String "-"%char (dec_unsigned (- n))
  else dec_unsigned n.

(** [m * 2^e * 10^6] rounded to the nearest integer, ties to even. *)
Definition scaled6 (m : positive) (e : Z) : Z :=
  let num := Z.pos m * 10 ^ 6 in
  if decide (0 ≤ e) then num * 2 ^ e
  else
    let den := 2 ^ (- e) in
    let q := num / den in
    let r := num mod den in
    match Z.compare (2 * r) den with
    | Lt => q
    | Eq => if Z.even q then q else q + 1
    | Gt => q + 1
    end.

Definition sign_str (s : bool) : string := if s then "-" else "".

(** Conversion [%.6f] of a [double]. *)
Definition fmt_6f (x : float64) : string :=
  match x with
  | S754_nan => "nan"
  | S754_infinity s => sign_str s +:+ "inf"
  | S754_zero s => sign_str s +:+ "0.000000"
  | S754_finite s m e =>
      let q := scaled6 m e in
      sign_str s +:+ dec_unsigned (q / 10 ^ 6) +:+ "." +:+ dec_fixed 6 q
  end.

Definition newline : string := String (ascii_of_nat 10) EmptyString.

End Libc.

Export Libc.

(** ** The test bench: [tb_jacobi_hls.cpp] *)

Module Testbench.

(** [std::vector<float> v(n)] with [n] an [int]: [n] zero-initialised
    floats.  A negative [n] converts to a [size_t] above [max_size()] and
    the constructor throws.  Memory is assumed to suffice otherwise. *)
Definition vector_new (n : Z) : res (list float32) :=
  if decide (n < 0) then Fault LengthError
  else Ok (replicate (Z.to_nat n) f32_zero).

(** [init_grid]: [std::fill] with [0.0f], then [a[j] = 1.0f] for
    [0 <= j < M] through the unchecked [operator[]]. *)
Definition init_grid (a : list float32) (N M : Z) : res (list float32) :=
  let a0 := replicate (length a) f32_zero in
  for_int M (λ j a, store a j f32_one) a0.

(** The three assignments from [argv]; [argc] is [length argv] and counts
    the program name [argv[0]]. *)
Definition parse_args (argv : list string) : res (Z * Z * Z) :=
  let argc := Z.of_nat (length argv) in
  nm ← (if decide (3 ≤ argc) then
          n ← atoi (argv !!! 1%nat);
          m ← atoi (argv !!! 2%nat);
          Ok (n, m)
        else Ok (1024, 1024));
  iters ← (if decide (4 ≤ argc) then atoi (argv !!! 3%nat) else Ok 10);
  Ok (nm.1, nm.2, iters).

(** One turn of the iteration loop: the kernel call, then [std::swap]. *)
Definition iterate_body (N M : Z) (_ : Z) (ab : list float32 * list float32)
  : res (list float32 * list float32) :=
  b' ← jacobi2d_hls ab.1 ab.2 N M;
  Ok (b', ab.1).

(** [sum += a[i]] with [sum] a [double]. *)
Definition sum_body (a : list float32) (i : Z) (sum : float64) : res float64 :=
  v ← load a i;
  Ok (f64_add sum (f64_of_f32 v)).

Definition report (N M iters : Z) (sum : float64) : string :=
  "HLS csim done: N=" +:+ fmt_d N +:+ " M=" +:+ fmt_d M
  +:+ " iters=" +:+ fmt_d iters +:+ " checksum=" +:+ fmt_6f sum +:+ newline.

(** [main] after the arguments are read: the text written to standard
    output. *)
Definition run (N M iters : Z) : res string :=
  sz ← int_mul N M;
  a ← vector_new sz;
  _ ← vector_new sz;
  a ← init_grid a N M;
  ab ← for_int iters (iterate_body N M) (a, a);
  n ← int_mul N M;
  sum ← for_int n (sum_body ab.1) f64_zero;
  Ok (report N M iters sum).

Definition main (argv : list string) : res string :=
  args ← parse_args argv;
  run args.1.1 args.1.2 args.2.

End Testbench.

Export Testbench.

(** ** What the specification says about one update

    Cell [(i, j)] of an [N]x[M] grid is element [i*M + j] of the buffer. *)

Definition idx_of (M i j : Z) : nat := Z.to_nat (i * M + j).

#[global] Instance float32_inhabited : Inhabited float32 := populate f32_zero.

Definition cell (g : list float32) (M i j : Z) : float32 :=
  g !!! idx_of M i j.

Definition on_border (N M i j : Z) : Prop :=
  i = 0 ∨ j = 0 ∨ i = N - 1 ∨ j = M - 1.

#[global] Instance on_border_dec N M i j : Decision (on_border N M i j) :=
  ltac:(unfold on_border; apply _).

(** A quarter of the sum of the four neighbours, added in the order of the
    source expression [up + down + left + right]. *)
Definition average4 (up down left right : float32) : float32 :=
  f32_mul f32_quarter (f32_add (f32_add (f32_add up down) left) right).

Definition stencil_cell (g : list float32) (N M i j : Z) : float32 :=
  if decide (on_border N M i j) then cell g M i j
  else average4 (cell g M (i - 1) j) (cell g M (i + 1) j)
                (cell g M i (j - 1)) (cell g M i (j + 1)).

(** The updated grid, cell by cell in row-major order. *)
Definition stencil_at (g : list float32) (N M : Z) (k : nat) : float32 :=
  stencil_cell g N M (Z.of_nat k / M) (Z.of_nat k mod M).

Definition stencil (g : list float32) (N M : Z) : list float32 :=
  (λ k, stencil_at g N M k) <$> seq 0 (Z.to_nat (N * M)).

(** [filled inp N M out n s]: the first [n] cells of [s] hold their
    stencil values and the rest of [s] is still [out]. *)
Definition filled (inp : list float32) (N M : Z) (out : list float32)
    (n : Z) (s : list float32) : Prop :=
  length s = length out ∧
  ∀ k : nat,
    (Z.of_nat k < n → s !! k = Some (stencil_at inp N M k)) ∧
    (n ≤ Z.of_nat k → s !! k = out !! k).

(** Two buffers that agree on their first [n] cells. *)
Definition agree (n : Z) (s1 s2 : list float32) : Prop :=
  length s1 = length s2 ∧ ∀ k : nat, Z.of_nat k < n → s1 !! k = s2 !! k.

(** Two buffers that hold the same [N]x[M] grid. *)
Definition same_cells (N M : Z) (s1 s2 : list float32) : Prop :=
  ∀ i j, 0 ≤ i < N → 0 ≤ j < M → s1 !! idx_of M i j = s2 !! idx_of M i j.

(** What one turn of [Col_Loop] writes, and where: the part of [Col_body]
    before the store, which does not depend on the output buffer. *)
Definition Col_write (inp : list float32) (N M i j : Z) : res (Z * float32) :=
  idx ← lin M i j;
  b ← is_boundary N M i j;
  if b : bool then
    v ← load inp idx;
    Ok (idx, v)
  else
    im1 ← int_sub i 1; ku ← lin M im1 j; up ← load inp ku;
    ip1 ← int_add i 1; kd ← lin M ip1 j; down ← load inp kd;
    jm1 ← int_sub j 1; kl ← lin M i jm1; left ← load inp kl;
    jp1 ← int_add j 1; kr ← lin M i jp1; right ← load inp kr;
    Ok (idx, average4 up down left right).

(** ** What the specification says about the driver *)

(** The starting grid: 1.0 on row 0 and 0.0 elsewhere. *)
Definition initial_grid (N M : Z) : list float32 :=
  (λ k : nat, if decide (Z.of_nat k / M = 0) then f32_one else f32_zero)
  <$> seq 0 (Z.to_nat (N * M)).

(** The grid after [T] updates. *)
Definition updated (N M : Z) (T : nat) (g : list float32) : list float32 :=
  Nat.iter T (λ g, stencil g N M) g.

(** The sum of all cells, accumulated in a [double] in index order. *)
Definition checksum (g : list float32) : float64 :=
  foldl (λ sum v, f64_add sum (f64_of_f32 v)) f64_zero g.

(** The number of newline characters in a text. *)
Fixpoint count_newlines (s : string) : nat :=
  match s with
  | EmptyString => O
  | String c s' =>
      ((if Ascii.eqb c (ascii_of_nat 10) then 1 else 0) + count_newlines s')%nat
  end.

(** ** Inputs used in the examples below *)

(** The 4x4 grid of the end-to-end scenario. *)
Definition grid44 : list float32 :=
  replicate 4 f32_one ++ replicate 12 f32_zero.

(** An [N]x[M] grid with every cell equal to [c]. *)
Definition const_grid (N M : Z) (c : float32) : list float32 :=
  replicate (Z.to_nat (N * M)) c.

(** * Proofs *)

(** ** The embedding on small inputs *)

Example f32_one_is_1 : binary_normalize 24 128 1 0 false = f32_one.
Proof. reflexivity. Qed.

Example f32_quarter_is_2_pow_minus_2 :
  binary_normalize 24 128 1 (-2) false = f32_quarter.
Proof. reflexivity. Qed.

Example FLT_MAX_is_largest :
  valid_binary 24 128 FLT_MAX = true ∧ f32_add FLT_MAX FLT_MAX = S754_infinity false.
Proof. split; reflexivity. Qed.

Example atoi_examples :
  atoi "42" = Ok 42 ∧ atoi "  -7x" = Ok (-7) ∧ atoi "abc" = Ok 0 ∧
  atoi "2147483648" = Fault SignedOverflow.
Proof. repeat split; reflexivity. Qed.

Example fmt_examples :
  fmt_d (-120) = "-120"%string ∧ fmt_d 0 = "0"%string ∧
  fmt_6f (S754_finite false 9 (-1)) = "4.500000"%string ∧
  fmt_6f (S754_finite true 3 (-21)) = "-0.000001"%string.
Proof. repeat split; reflexivity. Qed.

Example main_4_4_1 :
  main ["tb_jacobi_hls"; "4"; "4"; "1"]
  = Ok ("HLS csim done: N=4 M=4 iters=1 checksum=4.500000" +:+ newline).
Proof. vm_compute. reflexivity. Qed.

Example main_rows_without_columns :
  main ["tb_jacobi_hls"; "0"; "3"] = Fault OutOfBounds ∧
  main ["tb_jacobi_hls"; "-3"; "5"; "2"] = Fault LengthError.
Proof. split; vm_compute; reflexivity. Qed.

(** ** The result monad *)

Lemma bind_Ok {A B} (k : A → res B) (a : A) : (Ok a ≫= k) = k a.
Proof. reflexivity. Qed.

Lemma bind_Fault {A B} (k : A → res B) (f : fault) : (Fault f ≫= k) = Fault f.
Proof. reflexivity. Qed.

Lemma faulty_not_Ok {A} (r : res A) : faulty r ↔ ∀ a, r ≠ Ok a.
Proof.
  split.
  - intros [f ->] a. discriminate.
  - intros H. destruct r as [a|f]; [destruct (H a eq_refl) | by exists f].
Qed.

Lemma bind_faulty_l {A B} (m : res A) (k : A → res B) :
  faulty m → faulty (m ≫= k).
Proof. intros [f ->]. by exists f. Qed.

Lemma bind_faulty_r {A B} (m : res A) (k : A → res B) :
  (∀ a, faulty (k a)) → faulty (m ≫= k).
Proof. intros H. destruct m as [a|f]; [apply H | by exists f]. Qed.

(** ** Integers *)

Lemma int_ok_in z : INT_MIN ≤ z ≤ INT_MAX → int_ok z = Ok z.
Proof. intros H. unfold int_ok. by rewrite decide_True. Qed.

Lemma int_ok_out z : ¬ (INT_MIN ≤ z ≤ INT_MAX) → int_ok z = Fault SignedOverflow.
Proof. intros H. unfold int_ok. by rewrite decide_False. Qed.

(** ** Buffers *)

Lemma load_Some buf idx v :
  0 ≤ idx → buf !! Z.to_nat idx = Some v → load buf idx = Ok v.
Proof. intros H E. unfold load. rewrite decide_True by done. by rewrite E. Qed.

Lemma load_in buf idx :
  0 ≤ idx < Z.of_nat (length buf) → load buf idx = Ok (buf !!! Z.to_nat idx).
Proof.
  intros H. destruct (lookup_lt_is_Some_2 buf (Z.to_nat idx)) as [v E]; [lia|].
  rewrite (load_Some _ _ v) by (done || lia).
  by rewrite (list_lookup_total_correct _ _ _ E).
Qed.

Lemma store_in buf idx v :
  0 ≤ idx < Z.of_nat (length buf) → store buf idx v = Ok (<[Z.to_nat idx := v]> buf).
Proof. intros H. unfold store. by rewrite decide_True. Qed.

(** ** Loops *)

Section loops.
Context {St : Type}.
Implicit Types (body : Z → St → res St) (s : St).

(** A loop whose body keeps an invariant terminates normally in a state
    that satisfies it. *)
Lemma for_from_inv (P : Z → St → Prop) body lo cnt s :
  P lo s →
  (∀ k t, lo ≤ k < lo + Z.of_nat cnt → P k t →
          ∃ t', body k t = Ok t' ∧ P (k + 1) t') →
  ∃ s', for_from lo cnt body s = Ok s' ∧ P (lo + Z.of_nat cnt) s'.
Proof.
  revert lo s. induction cnt as [|c IH]; intros lo s H0 Hstep.
  - exists s. split; [done|]. by replace (lo + Z.of_nat 0) with lo by lia.
  - destruct (Hstep lo s) as (t & Hb & Ht); [lia|done|].
    destruct (IH (lo + 1) t) as (s' & Hl & Hs'); [done| |].
    + intros k u Hk. apply Hstep. lia.
    + exists s'. split.
      * simpl. rewrite Hb. exact Hl.
      * by replace (lo + Z.of_nat (S c)) with (lo + 1 + Z.of_nat c) by lia.
Qed.

Lemma for_int_inv (P : Z → St → Prop) body hi s :
  0 ≤ hi → P 0 s →
  (∀ k t, 0 ≤ k < hi → P k t → ∃ t', body k t = Ok t' ∧ P (k + 1) t') →
  ∃ s', for_int hi body s = Ok s' ∧ P hi s'.
Proof.
  intros Hhi H0 Hstep.
  destruct (for_from_inv P body 0 (Z.to_nat hi) s) as (s' & E & H); [done| |].
  - intros k t Hk. apply Hstep. lia.
  - exists s'. split; [done|]. by replace hi with (0 + Z.of_nat (Z.to_nat hi)) by lia.
Qed.

(** A loop that reaches a turn whose body always faults, faults. *)
Lemma for_from_faulty body lo cnt s k :
  lo ≤ k < lo + Z.of_nat cnt → (∀ t, faulty (body k t)) →
  faulty (for_from lo cnt body s).
Proof.
  revert lo s. induction cnt as [|c IH]; intros lo s Hk Hf; [lia|].
  simpl. destruct (decide (k = lo)) as [->|Hne].
  - by apply bind_faulty_l.
  - apply bind_faulty_r. intros t. apply IH; [lia|done].
Qed.

Lemma for_int_faulty body hi s k :
  0 ≤ k < hi → (∀ t, faulty (body k t)) → faulty (for_int hi body s).
Proof. intros Hk. apply for_from_faulty. lia. Qed.

Lemma for_int_nonpos body hi s : hi ≤ 0 → for_int hi body s = Ok s.
Proof. intros H. unfold for_int. by replace (Z.to_nat hi) with O by lia. Qed.
End loops.

(** ** One call of the kernel *)

Ltac int_range := unfold INT_MIN, INT_MAX in *; nia.

Section kernel_call.
Variables (inp : list float32) (N M : Z).
Hypothesis Hfit : N * M ≤ 2 ^ 31.
Hypothesis Hinp : Z.of_nat (length inp) = N * M.

Lemma lin_ok r c : 0 ≤ r < N → 0 ≤ c < M → lin M r c = Ok (r * M + c).
Proof.
  clear Hinp. intros Hr Hc. unfold lin, int_mul, int_add.
  rewrite int_ok_in by int_range. rewrite bind_Ok.
  apply int_ok_in. int_range.
Qed.

Lemma is_boundary_ok i j :
  0 ≤ i < N → 0 ≤ j < M →
  is_boundary N M i j = Ok (bool_decide (on_border N M i j)).
Proof.
  clear Hinp. intros Hi Hj. unfold is_boundary, on_border, int_sub.
  destruct (decide (i = 0)) as [->|Hi0].
  { f_equal; symmetry; apply bool_decide_eq_true_2; lia. }
  destruct (decide (j = 0)) as [->|Hj0].
  { f_equal; symmetry; apply bool_decide_eq_true_2; lia. }
  rewrite (int_ok_in (N - 1)) by int_range. rewrite bind_Ok.
  destruct (decide (i = N - 1)) as [->|HiN].
  { f_equal; symmetry; apply bool_decide_eq_true_2; lia. }
  rewrite (int_ok_in (M - 1)) by int_range. rewrite bind_Ok.
  f_equal. apply bool_decide_ext. split; [lia|tauto].
Qed.

Lemma load_cell r c :
  0 ≤ r < N → 0 ≤ c < M → load inp (r * M + c) = Ok (cell inp M r c).
Proof.
  clear Hfit.
  intros Hr Hc. unfold cell, idx_of. apply load_in. nia. Qed.

(** One turn of [Col_Loop] stores the stencil value of its cell. *)
Lemma Col_body_ok out i j :
  0 ≤ i < N → 0 ≤ j < M → N * M ≤ Z.of_nat (length out) →
  Col_body inp N M i j out
  = Ok (<[idx_of M i j := stencil_cell inp N M i j]> out).
Proof.
  intros Hi Hj Hout. unfold Col_body, stencil_cell.
  rewrite lin_ok, bind_Ok by done.
  rewrite is_boundary_ok, bind_Ok by done.
  destruct (decide (on_border N M i j)) as [Hb|Hb].
  - rewrite bool_decide_eq_true_2 by done.
    rewrite load_cell, bind_Ok by done.
    apply store_in. nia.
  - rewrite bool_decide_eq_false_2 by done.
    unfold on_border in Hb.
    unfold int_sub, int_add.
    repeat first
      [ rewrite bind_Ok
      | rewrite int_ok_in by int_range
      | rewrite lin_ok by lia
      | rewrite load_cell by lia ].
    apply store_in. nia.
Qed.

Lemma stencil_at_idx i j :
  0 ≤ i → 0 ≤ j < M →
  stencil_at inp N M (idx_of M i j) = stencil_cell inp N M i j.
Proof.
  clear Hfit Hinp.
  intros Hi Hj. unfold stencil_at, idx_of.
  rewrite Z2Nat.id by nia.
  replace ((i * M + j) / M) with i by (apply Z.div_unique with j; lia).
  replace ((i * M + j) mod M) with j by (apply Z.mod_unique with i; lia).
  done.
Qed.

Lemma filled_step out i j t :
  0 ≤ i < N → 0 ≤ j < M → N * M ≤ Z.of_nat (length out) →
  filled inp N M out (i * M + j) t →
  filled inp N M out (i * M + j + 1) (<[idx_of M i j := stencil_cell inp N M i j]> t).
Proof.
  clear Hfit Hinp.
  intros Hi Hj Hout [Hlen Hk]. split; [by rewrite length_insert|].
  intros k. destruct (decide (k = idx_of M i j)) as [->|Hne].
  - split; [intros _|unfold idx_of; nia].
    rewrite list_lookup_insert_eq by (unfold idx_of; nia).
    by rewrite stencil_at_idx by lia.
  - rewrite list_lookup_insert_ne by done.
    destruct (Hk k) as [Hlt Hge].
    split; intros Hk'; [apply Hlt|apply Hge]; unfold idx_of in Hne; nia.
Qed.

Lemma Col_Loop_ok out i t :
  0 ≤ i < N → N * M ≤ Z.of_nat (length out) →
  filled inp N M out (i * M) t →
  ∃ t', Col_Loop inp N M i t = Ok t' ∧ filled inp N M out ((i + 1) * M) t'.
Proof.
  intros Hi Hout Ht. unfold Col_Loop.
  destruct (for_int_inv (λ j s, filled inp N M out (i * M + j) s)
              (Col_body inp N M i) M t) as (t' & E & Ht'); [nia| | |].
  - by replace (i * M + 0) with (i * M) by lia.
  - intros j s Hj Hs. eexists. split.
    + apply Col_body_ok; [done..|]. destruct Hs as [-> _]. done.
    + replace (i * M + (j + 1)) with (i * M + j + 1) by lia.
      by apply filled_step.
  - exists t'. split; [done|].
    by replace ((i + 1) * M) with (i * M + M) by lia.
Qed.

Lemma jacobi2d_hls_filled out :
  1 ≤ N → 1 ≤ M → N * M ≤ Z.of_nat (length out) →
  ∃ r, jacobi2d_hls inp out N M = Ok r ∧ filled inp N M out (N * M) r.
Proof.
  intros HN HM Hout. unfold jacobi2d_hls.
  apply (for_int_inv (λ i s, filled inp N M out (i * M) s)); [lia| |].
  - split; [done|]. intros k. split; [lia|done].
  - intros i t Hi Ht. by apply Col_Loop_ok.
Qed.

(** The kernel computes the update of the specification, whatever the
    output buffer held before. *)
Lemma jacobi2d_hls_stencil out :
  1 ≤ N → 1 ≤ M → Z.of_nat (length out) = N * M →
  jacobi2d_hls inp out N M = Ok (stencil inp N M).
Proof.
  intros HN HM Hout.
  destruct (jacobi2d_hls_filled out) as (r & -> & Hlen & Hr); [lia..|].
  f_equal. apply list_eq. intros k. unfold stencil.
  rewrite list_lookup_fmap.
  destruct (decide (Z.of_nat k < N * M)) as [Hk|Hk].
  - rewrite lookup_seq_lt by lia. simpl. by apply Hr.
  - rewrite lookup_seq_ge by lia. simpl.
    apply lookup_ge_None. lia.
Qed.

Lemma stencil_length : length (stencil inp N M) = Z.to_nat (N * M).
Proof. unfold stencil. by rewrite length_fmap, length_seq. Qed.

Lemma stencil_lookup i j :
  0 ≤ i < N → 0 ≤ j < M →
  stencil inp N M !! idx_of M i j = Some (stencil_cell inp N M i j).
Proof.
  clear Hfit Hinp.
  intros Hi Hj. unfold stencil. rewrite list_lookup_fmap.
  rewrite lookup_seq_lt by (unfold idx_of; nia). simpl.
  by rewrite stencil_at_idx by lia.
Qed.

Lemma cell_lookup r c :
  0 ≤ r < N → 0 ≤ c < M → inp !! idx_of M r c = Some (cell inp M r c).
Proof.
  clear Hfit.
  intros Hr Hc. unfold cell. apply list_lookup_lookup_total_lt.
  unfold idx_of. nia.
Qed.

(** With at most two rows or two columns every cell is on the border. *)
Lemma stencil_degenerate :
  1 ≤ N → 1 ≤ M → N ≤ 2 ∨ M ≤ 2 → stencil inp N M = inp.
Proof.
  clear Hfit.
  intros HN HM Hdeg. apply list_eq. intros k. unfold stencil.
  rewrite list_lookup_fmap.
  destruct (decide (Z.of_nat k < N * M)) as [Hk|Hk].
  - rewrite lookup_seq_lt by lia. simpl.
    pose proof (Z.div_mod (Z.of_nat k) M ltac:(lia)) as Hdm.
    pose proof (Z.mod_pos_bound (Z.of_nat k) M ltac:(lia)) as Hmod.
    assert (0 ≤ Z.of_nat k / M < N) as Hdiv.
    { split; [apply Z.div_pos; lia|apply Z.div_lt_upper_bound; lia]. }
    unfold stencil_at, stencil_cell.
    rewrite decide_True by (unfold on_border; lia).
    rewrite <- cell_lookup by done. f_equal. unfold idx_of. lia.
  - rewrite lookup_seq_ge by lia. simpl. symmetry.
    apply lookup_ge_None. lia.
Qed.
End kernel_call.

(** The kernel leaves the buffer alone when a loop bound is not positive. *)
Lemma jacobi2d_hls_nonpos inp out N M :
  N ≤ 0 ∨ M ≤ 0 → jacobi2d_hls inp out N M = Ok out.
Proof.
  intros H. unfold jacobi2d_hls.
  destruct (decide (N ≤ 0)) as [HN|HN]; [by apply for_int_nonpos|].
  destruct (for_int_inv (λ _ s, s = out) (Col_Loop inp N M) N out)
    as (r & -> & ->); [lia|done| |done].
  intros k t _ ->. exists out. split; [|done].
  unfold Col_Loop. apply for_int_nonpos. lia.
Qed.

(** A cell whose turn always faults makes the whole call fault. *)
Lemma jacobi2d_hls_faulty inp out N M i j :
  0 ≤ i < N → 0 ≤ j < M →
  (∀ t, faulty (Col_body inp N M i j t)) →
  faulty (jacobi2d_hls inp out N M).
Proof.
  intros Hi Hj Hf. unfold jacobi2d_hls.
  apply (for_int_faulty _ _ _ i); [done|].
  intros t. unfold Col_Loop. by apply (for_int_faulty _ _ _ j).
Qed.

(** ** Binary32 arithmetic

    The shifter of [SpecFloat], its rounding, and the sums and the product
    that the kernel computes on a constant neighbourhood. *)

Lemma iter_pos_nat {A} (f : A → A) (p : positive) (x : A) :
  SpecFloat.iter_pos f p x = Nat.iter (Pos.to_nat p) f x.
Proof.
  revert x. induction p as [p IH|p IH|]; intros x; cbn [SpecFloat.iter_pos].
  - rewrite !IH. rewrite Pos2Nat.inj_xI.
    replace (S (2 * Pos.to_nat p)) with (Pos.to_nat p + (Pos.to_nat p + 1))%nat by lia.
    rewrite !Nat.iter_add. done.
  - rewrite !IH. rewrite Pos2Nat.inj_xO.
    replace (2 * Pos.to_nat p)%nat with (Pos.to_nat p + Pos.to_nat p)%nat by lia.
    by rewrite Nat.iter_add.
  - done.
Qed.

Lemma shr_1_nonneg (m : Z) r s :
  0 ≤ m → shr_1 (Build_shr_record m r s) = Build_shr_record (m / 2) (Z.odd m) (r || s).
Proof.
  intros Hm. rewrite <- Z.div2_div.
  destruct m as [|[p|p|]|p]; try done; lia.
Qed.

Lemma shifted_step (m n : Z) x :
  0 ≤ m → 0 ≤ n → shifted m n x → shifted m (n + 1) (shr_1 x).
Proof.
  intros Hm Hn (Hq & Hr & Hs). destruct x as [q r s]. cbn [shr_m shr_r shr_s] in *.
  assert (0 ≤ q) by (subst q; apply Z.div_pos; lia).
  rewrite shr_1_nonneg by done. unfold shifted. cbn [shr_m shr_r shr_s].
  assert (0 < 2 ^ n) as Hp by lia.
  rewrite Z.pow_add_r, Z.pow_1_r by lia.
  rewrite Z.rem_mul_r by lia.
  rewrite <- Z.div_div by lia. rewrite <- Hq.
  pose proof (Z.mod_pos_bound m (2 ^ n) Hp) as Hrem.
  pose proof (Z.mod_pos_bound q 2 ltac:(lia)) as Hb.
  rewrite Zodd_mod. 
  destruct (Z.eqb_spec (q mod 2) 1) as [Hb1|Hb1];
    (split; [done|]); split; rewrite ?orb_true_iff, ?Hr, ?Hs; lia.
Qed.

Lemma shifted_iter (m : Z) (n : nat) :
  0 ≤ m →
  shifted m (Z.of_nat n) (Nat.iter n shr_1 (Build_shr_record m false false)).
Proof.
  intros Hm. induction n as [|n IH].
  - simpl. unfold shifted. simpl. rewrite Z.div_1_r, Z.mod_1_r. 
    split; [done|]. split; split; (done || lia).
  - rewrite Nat.iter_succ, Nat2Z.inj_succ. apply shifted_step; [done|lia|done].
Qed.

Lemma shifted_round (m n : Z) x :
  0 ≤ m → 0 ≤ n → shifted m n x →
  round_nearest_even (shr_m x) (loc_of_shr_record x) = rne_shift m n.
Proof.
  intros Hm Hn (Hq & Hr & Hs). destruct x as [q r s]. simpl in *.
  unfold rne_shift. rewrite <- Hq.
  assert (0 < 2 ^ n) as Hp by lia.
  pose proof (Z.mod_pos_bound m (2 ^ n) Hp) as Hrem.
  destruct (Z.ltb_spec (2 * (m mod 2 ^ n)) (2 ^ n)) as [H1|H1].
  { assert (r = false) as -> by (destruct r; [lia|done]).
    by destruct s. }
  assert (r = true) as -> by (apply Hr; lia).
  destruct (Z.ltb_spec (2 ^ n) (2 * (m mod 2 ^ n))) as [H2|H2].
  { assert (s = true) as -> by (apply Hs; lia). done. }
  assert (s = false) as -> by (destruct s; [lia|done]).
  simpl. rewrite Zeven_mod.
  pose proof (Z.mod_pos_bound q 2 ltac:(lia)) as Hb.
  destruct (Z.eqb_spec (q mod 2) 0); lia.
Qed.

Lemma shr_round (m e n : Z) :
  0 ≤ m → 0 < n →
  let x := shr (Build_shr_record m false false) e n in
  round_nearest_even (shr_m x.1) (loc_of_shr_record x.1) = rne_shift m n
  ∧ shr_m x.1 = m / 2 ^ n ∧ x.2 = e + n.
Proof.
  intros Hm Hn. destruct n as [|p|p]; try lia. simpl.
  rewrite iter_pos_nat.
  pose proof (shifted_iter m (Pos.to_nat p) Hm) as Hx.
  rewrite positive_nat_Z in Hx.
  split; [by apply shifted_round|]. split; [apply Hx|done].
Qed.

Lemma digits2_pos_bounds (p : positive) :
  2 ^ (Z.pos (digits2_pos p) - 1) ≤ Z.pos p < 2 ^ Z.pos (digits2_pos p).
Proof.
  induction p as [p IH|p IH|]; cbn [digits2_pos]; [| |done];
    rewrite Pos2Z.inj_succ;
    replace (Z.succ (Z.pos (digits2_pos p)) - 1) with (Z.succ (Z.pos (digits2_pos p) - 1)) by lia;
    rewrite !Z.pow_succ_r by lia; lia.
Qed.

Lemma Zdigits2_unique (m d : Z) :
  2 ^ (d - 1) ≤ m < 2 ^ d → 0 < d → Zdigits2 m = d.
Proof.
  intros Hm Hd. assert (0 < m) by lia.
  destruct m as [|p|p]; try lia. simpl.
  pose proof (digits2_pos_bounds p) as Hp.
  destruct (Z.lt_trichotomy (Z.pos (digits2_pos p)) d) as [Hlt|[Heq|Hgt]]; [|done|].
  - assert (2 ^ Z.pos (digits2_pos p) ≤ 2 ^ (d - 1)) by (apply Z.pow_le_mono_r; lia). lia.
  - assert (2 ^ d ≤ 2 ^ (Z.pos (digits2_pos p) - 1)) by (apply Z.pow_le_mono_r; lia). lia.
Qed.


Lemma fexp32 (e : Z) : fexp 24 128 e = Z.max (e - 24) (-149).
Proof. reflexivity. Qed.

Lemma Zdigits2_le (m k : Z) : 0 < m < 2 ^ k → Zdigits2 m ≤ k.
Proof.
  intros Hm. destruct m as [|p|p]; try lia. simpl.
  pose proof (digits2_pos_bounds p) as Hp.
  destruct (decide (Z.pos (digits2_pos p) ≤ k)) as [|Hgt]; [done|].
  assert (2 ^ k ≤ 2 ^ (Z.pos (digits2_pos p) - 1)); [|lia].
  apply Z.pow_le_mono_r; [lia|].
  assert (0 ≤ k); [|lia].
  destruct (decide (0 ≤ k)); [done|]. rewrite Z.pow_neg_r in Hm by lia. lia.
Qed.

Lemma Zdigits2_ge (m k : Z) : 2 ^ (k - 1) ≤ m → 0 < m → k ≤ Zdigits2 m.
Proof.
  intros Hk Hm. destruct m as [|p|p]; try lia. simpl.
  pose proof (digits2_pos_bounds p) as Hp.
  destruct (decide (k ≤ Z.pos (digits2_pos p))) as [|Hgt]; [done|].
  assert (2 ^ Z.pos (digits2_pos p) ≤ 2 ^ (k - 1)); [|lia].
  apply Z.pow_le_mono_r; lia.
Qed.

Lemma rne_shift_exact (q n : Z) : 0 ≤ n → rne_shift (q * 2 ^ n) n = q.
Proof.
  intros Hn. unfold rne_shift. assert (0 < 2 ^ n) by lia.
  rewrite Z.div_mul, Z.mod_mul by lia. cbv zeta. rewrite Z.mul_0_r.
  destruct (Z.ltb_spec 0 (2 ^ n)); [done|lia].
Qed.

Lemma shr_fexp_exact (m e : Z) :
  fexp 24 128 (Zdigits2 m + e) ≤ e →
  shr_fexp 24 128 m e loc_Exact = (Build_shr_record m false false, e).
Proof.
  intros H. unfold shr_fexp, shr. cbn [shr_record_of_loc].
  destruct (fexp 24 128 (Zdigits2 m + e) - e) eqn:E; (done || lia).
Qed.

Lemma round_aux_exact (s : bool) (p : positive) (e : Z) :
  fexp 24 128 (Zdigits2 (Z.pos p) + e) ≤ e → e ≤ 104 →
  binary_round_aux 24 128 s (Z.pos p) e loc_Exact = S754_finite s p e.
Proof.
  intros H He. unfold binary_round_aux.
  rewrite shr_fexp_exact by done. cbn [shr_m loc_of_shr_record round_nearest_even].
  rewrite shr_fexp_exact by done. cbn [shr_m].
  change (128 - 24) with 104.
  by destruct (Z.leb_spec e 104); [|lia].
Qed.

Lemma round_aux_shift_gen (s : bool) (m e n : Z) (q : positive) :
  0 < m → 0 < n →
  fexp 24 128 (Zdigits2 m + e) = e + n →
  rne_shift m n = Z.pos q →
  fexp 24 128 (Zdigits2 (Z.pos q) + (e + n)) ≤ e + n →
  binary_round_aux 24 128 s m e loc_Exact
  = if e + n <=? 104 then S754_finite s q (e + n) else S754_infinity s.
Proof.
  intros Hm Hn Hfexp Hq Hq'. unfold binary_round_aux.
  unfold shr_fexp at 1. cbn [shr_record_of_loc].
  replace (fexp 24 128 (Zdigits2 m + e) - e) with n by lia.
  destruct (shr_round m e n) as (Hr & _ & He'); [lia|done|].
  destruct (shr _ e n) as [x e']. cbn [fst snd] in *. subst e'.
  rewrite Hr, Hq. rewrite shr_fexp_exact by done. cbn [shr_m].
  done.
Qed.

Lemma round_aux_shift (s : bool) (m e n : Z) (q : positive) :
  0 < m → 0 < n →
  fexp 24 128 (Zdigits2 m + e) = e + n →
  rne_shift m n = Z.pos q →
  fexp 24 128 (Zdigits2 (Z.pos q) + (e + n)) ≤ e + n →
  e + n ≤ 104 →
  binary_round_aux 24 128 s m e loc_Exact = S754_finite s q (e + n).
Proof.
  intros Hm Hn Hfexp Hq Hq' He. rewrite (round_aux_shift_gen s m e n q) by done.
  by destruct (Z.leb_spec (e + n) 104); [|lia].
Qed.

Lemma pos_iter_xO (m d : positive) :
  Z.pos (Pos.iter xO m d) = Z.pos m * 2 ^ Z.pos d.
Proof.
  induction d as [|d IH] using Pos.peano_ind.
  - simpl. lia.
  - rewrite Pos.iter_succ, Pos2Z.inj_succ, Z.pow_succ_r by lia.
    rewrite Pos2Z.inj_xO, IH. lia.
Qed.

Lemma shl_align_fst (m : positive) (e e' : Z) :
  e' ≤ e → Z.pos (shl_align m e e').1 = Z.pos m * 2 ^ (e - e').
Proof.
  intros H. unfold shl_align.
  destruct (e' - e) as [|d|d] eqn:E; try lia.
  - replace (e - e') with 0 by lia. simpl. lia.
  - simpl. rewrite pos_iter_xO. f_equal. f_equal. lia.
Qed.

Lemma binary_round_noshift (s : bool) (p : positive) (e : Z) :
  e ≤ fexp 24 128 (Zdigits2 (Z.pos p) + e) →
  binary_round 24 128 s p e = binary_round_aux 24 128 s (Z.pos p) e loc_Exact.
Proof.
  intros H. unfold binary_round, shl_align. simpl in H.
  destruct (fexp 24 128 (Z.pos (digits2_pos p) + e) - e) eqn:E; (done || lia).
Qed.

(** Adding two finite floats of the same sign. *)
Lemma SFadd_same_sign (s : bool) (m1 m2 p : positive) (e1 e2 : Z) :
  Z.pos p = Z.pos m1 * 2 ^ (e1 - Z.min e1 e2) + Z.pos m2 * 2 ^ (e2 - Z.min e1 e2) →
  f32_add (S754_finite s m1 e1) (S754_finite s m2 e2)
  = binary_round 24 128 s p (Z.min e1 e2).
Proof.
  intros Hp. unfold f32_add, SFadd.
  rewrite <- !shl_align_fst in Hp by lia.
  destruct s; cbn [cond_Zopp].
  - rewrite <- Z.opp_add_distr, <- Hp. done.
  - rewrite <- Hp. done.
Qed.



Lemma f32_add_exact (s : bool) (m1 m2 p : positive) (e1 e2 ez k1 k2 : Z) :
  ez = Z.min e1 e2 → k1 = e1 - ez → k2 = e2 - ez →
  Z.pos m1 * 2 ^ k1 + Z.pos m2 * 2 ^ k2 = Z.pos p →
  fexp 24 128 (Zdigits2 (Z.pos p) + ez) = ez → ez ≤ 104 →
  f32_add (S754_finite s m1 e1) (S754_finite s m2 e2) = S754_finite s p ez.
Proof.
  intros -> -> -> Hp Hf He.
  rewrite (SFadd_same_sign s m1 m2 p) by done.
  rewrite binary_round_noshift by lia.
  apply round_aux_exact; lia.
Qed.

Lemma f32_add_shift (s : bool) (m1 m2 q : positive) (e1 e2 ez k1 k2 M n : Z) :
  ez = Z.min e1 e2 → k1 = e1 - ez → k2 = e2 - ez →
  Z.pos m1 * 2 ^ k1 + Z.pos m2 * 2 ^ k2 = M →
  0 < n → fexp 24 128 (Zdigits2 M + ez) = ez + n →
  rne_shift M n = Z.pos q →
  fexp 24 128 (Zdigits2 (Z.pos q) + (ez + n)) ≤ ez + n → ez + n ≤ 104 →
  f32_add (S754_finite s m1 e1) (S754_finite s m2 e2)
  = S754_finite s q (ez + n).
Proof.
  intros -> -> -> HM Hn Hf Hq Hfq He.
  assert (0 < M) as HM0 by (subst M; lia).
  rewrite (SFadd_same_sign s m1 m2 (Z.to_pos M)) by (rewrite Z2Pos.id; lia).
  rewrite binary_round_noshift by (rewrite Z2Pos.id; lia).
  rewrite Z2Pos.id by done.
  by apply round_aux_shift.
Qed.

(** The same sum when the rounded result is beyond [FLT_MAX]. *)
Lemma f32_add_overflow (s : bool) (m1 m2 q : positive) (e1 e2 ez k1 k2 M n : Z) :
  ez = Z.min e1 e2 → k1 = e1 - ez → k2 = e2 - ez →
  Z.pos m1 * 2 ^ k1 + Z.pos m2 * 2 ^ k2 = M →
  0 < n → fexp 24 128 (Zdigits2 M + ez) = ez + n →
  rne_shift M n = Z.pos q →
  fexp 24 128 (Zdigits2 (Z.pos q) + (ez + n)) ≤ ez + n → 104 < ez + n →
  f32_add (S754_finite s m1 e1) (S754_finite s m2 e2) = S754_infinity s.
Proof.
  intros -> -> -> HM Hn Hf Hq Hfq He.
  assert (0 < M) as HM0 by (subst M; lia).
  rewrite (SFadd_same_sign s m1 m2 (Z.to_pos M)) by (rewrite Z2Pos.id; lia).
  rewrite binary_round_noshift by (rewrite Z2Pos.id; lia).
  rewrite Z2Pos.id by done.
  rewrite (round_aux_shift_gen s M _ n q) by done.
  by destruct (Z.leb_spec (Z.min e1 e2 + n) 104); [lia|].
Qed.

Lemma f32_quarter_mul (s : bool) (m q : positive) (e n : Z) :
  0 < n → fexp 24 128 (Zdigits2 (8388608 * Z.pos m) + (e - 25)) = e - 25 + n →
  8388608 * Z.pos m = Z.pos q * 2 ^ n →
  fexp 24 128 (Zdigits2 (Z.pos q) + (e - 25 + n)) ≤ e - 25 + n →
  e - 25 + n ≤ 104 →
  f32_mul f32_quarter (S754_finite s m e) = S754_finite s q (e - 25 + n).
Proof.
  intros Hn Hf Hq Hfq He. unfold f32_mul, f32_quarter, SFmul.
  replace (-25 + e) with (e - 25) by lia. cbn [xorb].
  rewrite Pos2Z.inj_mul.
  apply round_aux_shift; [lia|done|done| |done..].
  rewrite Hq. apply rne_shift_exact. lia.
Qed.

Ltac rne_solve :=
  unfold rne_shift in *; cbv zeta in *;
  change (2 ^ 1) with 2 in *; change (2 ^ 2) with 4 in *;
  repeat match goal with
         | |- context [Z.ltb ?a ?b] => destruct (Z.ltb_spec a b)
         | H : context [Z.ltb ?a ?b] |- _ => destruct (Z.ltb_spec a b)
         end;
  Z.to_euclidean_division_equations; lia.

Ltac digits_of M lo hi :=
  let H1 := fresh "Hdlo" in let H2 := fresh "Hdhi" in
  assert (lo ≤ Zdigits2 M) as H1 by (apply Zdigits2_ge; lia);
  assert (Zdigits2 M ≤ hi) as H2 by (apply Zdigits2_le; lia).

Lemma rne_pos (M n : Z) : 0 < n → 2 ^ n ≤ M → ∃ q : positive, rne_shift M n = Z.pos q.
Proof.
  intros Hn HM. exists (Z.to_pos (rne_shift M n)). rewrite Z2Pos.id; [done|].
  assert (0 < 2 ^ n) as Hp by lia.
  assert (1 ≤ M / 2 ^ n) by (apply Z.div_le_lower_bound; lia).
  pose proof (Z.mod_pos_bound (M / 2 ^ n) 2 ltac:(lia)).
  unfold rne_shift. cbv zeta.
  repeat match goal with |- context [Z.ltb ?a ?b] => destruct (Z.ltb_spec a b) end; lia.
Qed.

Lemma average4_normal (s : bool) (m : positive) (e : Z) :
  2 ^ 23 ≤ Z.pos m < 2 ^ 24 → -149 ≤ e ≤ 102 →
  let c := S754_finite s m e in average4 c c c c = c.
Proof.
  intros Hm He c. unfold average4, c.
  (* c + c *)
  rewrite (f32_add_shift s m m m e e e 0 0 (2 * Z.pos m) 1); try lia; cycle 1.
  { digits_of (2 * Z.pos m) 25 25. rewrite fexp32. lia. }
  { rne_solve. }
  { digits_of (Z.pos m) 24 24. rewrite fexp32. lia. }
  (* (c + c) + c *)
  destruct (rne_pos (3 * Z.pos m) 1) as [q Hq]; [lia..|].
  destruct (rne_pos (3 * Z.pos m) 2) as [q' Hq']; [lia..|].
  destruct (decide (3 * Z.pos m < 2 ^ 25)) as [H3|H3].
  - rewrite (f32_add_shift s m m q (e + 1) e e 1 0 (3 * Z.pos m) 1); try lia; cycle 1.
    { digits_of (3 * Z.pos m) 25 25. rewrite fexp32. lia. }
    { assert (2 ^ 23 ≤ Z.pos q < 2 ^ 24) by rne_solve.
      digits_of (Z.pos q) 24 24. rewrite fexp32. lia. }
    rewrite (f32_add_shift s q m m (e + 1) e e 1 0 (2 * Z.pos q + Z.pos m) 2); try lia; cycle 1.
    { assert (2 ^ 25 ≤ 2 * Z.pos q + Z.pos m < 2 ^ 26) by rne_solve.
      digits_of (2 * Z.pos q + Z.pos m) 26 26. rewrite fexp32. lia. }
    { rne_solve. }
    { digits_of (Z.pos m) 24 24. rewrite fexp32. lia. }
    rewrite (f32_quarter_mul s m m (e + 2) 23); try lia.
    + f_equal. lia.
    + digits_of (8388608 * Z.pos m) 47 47. rewrite fexp32. lia.
    + digits_of (Z.pos m) 24 24. rewrite fexp32. lia.
  - rewrite (f32_add_shift s m m q' (e + 1) e e 1 0 (3 * Z.pos m) 2); try lia; cycle 1.
    { digits_of (3 * Z.pos m) 26 26. rewrite fexp32. lia. }
    { assert (2 ^ 23 ≤ Z.pos q' < 2 ^ 24) by rne_solve.
      digits_of (Z.pos q') 24 24. rewrite fexp32. lia. }
    rewrite (f32_add_shift s q' m m (e + 2) e e 2 0 (4 * Z.pos q' + Z.pos m) 2); try lia; cycle 1.
    { assert (2 ^ 25 ≤ 4 * Z.pos q' + Z.pos m < 2 ^ 26) by rne_solve.
      digits_of (4 * Z.pos q' + Z.pos m) 26 26. rewrite fexp32. lia. }
    { rne_solve. }
    { digits_of (Z.pos m) 24 24. rewrite fexp32. lia. }
    rewrite (f32_quarter_mul s m m (e + 2) 23); try lia.
    + f_equal. lia.
    + digits_of (8388608 * Z.pos m) 47 47. rewrite fexp32. lia.
    + digits_of (Z.pos m) 24 24. rewrite fexp32. lia.
Qed.


Lemma average4_subnormal (s : bool) (m : positive) :
  Z.pos m < 2 ^ 23 →
  let c := S754_finite s m (-149) in average4 c c c c = c.
Proof.
  intros Hm c. unfold average4, c.
  (* c + c is exact *)
  rewrite (f32_add_exact s m m (m~0) (-149) (-149) (-149) 0 0); try lia; cycle 1.
  { digits_of (Z.pos m~0) 1 24. rewrite fexp32. lia. }
  destruct (decide (3 * Z.pos m < 2 ^ 24)) as [H3|H3].
  - (* 3c is exact *)
    rewrite (f32_add_exact s (m~0) m (m~0 + m) (-149) (-149) (-149) 0 0); try lia; cycle 1.
    { digits_of (Z.pos (m~0 + m)) 1 24. rewrite fexp32. lia. }
    destruct (decide (4 * Z.pos m < 2 ^ 24)) as [H4|H4].
    + rewrite (f32_add_exact s (m~0 + m) m (m~0~0) (-149) (-149) (-149) 0 0); try lia; cycle 1.
      { digits_of (Z.pos m~0~0) 1 24. rewrite fexp32. lia. }
      rewrite (f32_quarter_mul s (m~0~0) m (-149) 25); try lia.
      * done.
      * digits_of (8388608 * Z.pos m~0~0) 1 49. rewrite fexp32. lia.
      * digits_of (Z.pos m) 1 24. rewrite fexp32. lia.
    + rewrite (f32_add_shift s (m~0 + m) m (m~0) (-149) (-149) (-149) 0 0 (4 * Z.pos m) 1);
        try lia; cycle 1.
      { digits_of (4 * Z.pos m) 25 25. rewrite fexp32. lia. }
      { rne_solve. }
      { digits_of (Z.pos m~0) 1 24. rewrite fexp32. lia. }
      rewrite (f32_quarter_mul s (m~0) m (-149 + 1) 24); try lia.
      * done.
      * digits_of (8388608 * Z.pos m~0) 1 48. rewrite fexp32. lia.
      * digits_of (Z.pos m) 1 24. rewrite fexp32. lia.
  - destruct (rne_pos (3 * Z.pos m) 1) as [q Hq]; [lia..|].
    rewrite (f32_add_shift s (m~0) m q (-149) (-149) (-149) 0 0 (3 * Z.pos m) 1);
      try lia; cycle 1.
    { digits_of (3 * Z.pos m) 25 25. rewrite fexp32. lia. }
    { assert (Z.pos q < 2 ^ 24) by rne_solve.
      digits_of (Z.pos q) 1 24. rewrite fexp32. lia. }
    rewrite (f32_add_shift s q m (m~0) (-149 + 1) (-149) (-149) 1 0 (2 * Z.pos q + Z.pos m) 1);
      try lia; cycle 1.
    { assert (2 ^ 24 ≤ 2 * Z.pos q + Z.pos m < 2 ^ 25) by rne_solve.
      digits_of (2 * Z.pos q + Z.pos m) 25 25. rewrite fexp32. lia. }
    { rne_solve. }
    { digits_of (Z.pos m~0) 1 24. rewrite fexp32. lia. }
    rewrite (f32_quarter_mul s (m~0) m (-149 + 1) 24); try lia.
    + done.
    + digits_of (8388608 * Z.pos m~0) 1 48. rewrite fexp32. lia.
    + digits_of (Z.pos m) 1 24. rewrite fexp32. lia.
Qed.

Lemma bounded32_cases (m : positive) (e : Z) :
  bounded 24 128 m e = true →
  (2 ^ 23 ≤ Z.pos m < 2 ^ 24 ∧ -149 ≤ e ≤ 104) ∨ (Z.pos m < 2 ^ 23 ∧ e = -149).
Proof.
  unfold bounded, canonical_mantissa. rewrite andb_true_iff, Z.eqb_eq, Z.leb_le.
  rewrite fexp32. change (128 - 24) with 104. intros [Hc He].
  pose proof (digits2_pos_bounds m) as Hd.
  set (d := Z.pos (digits2_pos m)) in *.
  destruct (decide (d = 24)) as [Hd24|Hd24].
  - left. rewrite Hd24 in Hd. lia.
  - right. assert (d ≤ 23) by lia. split; [|lia].
    assert (2 ^ d ≤ 2 ^ 23) by (apply Z.pow_le_mono_r; lia). lia.
Qed.

Lemma average4_const (c : spec_float) : no_overflow4 c → average4 c c c c = c.
Proof.
  destruct c as [s|s| |s m e]; simpl; intros H.
  - by destruct s.
  - by destruct s.
  - done.
  - destruct H as [Hb He]. destruct (bounded32_cases m e Hb) as [[Hm He']|[Hm ->]].
    + by apply average4_normal; [|lia].
    + by apply average4_subnormal.
Qed.

(** Beyond that range the sum overflows: the bound of [no_overflow4] is
    the exact one. *)
Lemma average4_overflow (s : bool) (m : positive) (e : Z) :
  bounded 24 128 m e = true → 103 ≤ e →
  let c := S754_finite s m e in average4 c c c c = S754_infinity s.
Proof.
  intros Hb He c.
  destruct (bounded32_cases m e Hb) as [[Hm He']|[_ ->]]; [|lia].
  unfold average4, c.
  assert (∀ x, f32_mul f32_quarter (S754_infinity x) = S754_infinity x) as Hmul
    by (by intros []).
  assert (∀ x, f32_add (S754_infinity x) (S754_finite x m e) = S754_infinity x)
    as Hinf by (by intros []).
  destruct (rne_pos (3 * Z.pos m) 1) as [q Hq]; [lia..|].
  destruct (rne_pos (3 * Z.pos m) 2) as [q' Hq']; [lia..|].
  destruct (decide (e = 104)) as [->|He104].
  { rewrite (f32_add_overflow s m m m 104 104 104 0 0 (2 * Z.pos m) 1); try lia.
    - by rewrite !Hinf, Hmul.
    - digits_of (2 * Z.pos m) 25 25. rewrite fexp32. lia.
    - rne_solve.
    - digits_of (Z.pos m) 24 24. rewrite fexp32. lia. }
  assert (e = 103) as -> by lia.
  rewrite (f32_add_shift s m m m 103 103 103 0 0 (2 * Z.pos m) 1); try lia; cycle 1.
  { digits_of (2 * Z.pos m) 25 25. rewrite fexp32. lia. }
  { rne_solve. }
  { digits_of (Z.pos m) 24 24. rewrite fexp32. lia. }
  destruct (decide (3 * Z.pos m < 2 ^ 25)) as [H3|H3].
  - rewrite (f32_add_shift s m m q (103 + 1) 103 103 1 0 (3 * Z.pos m) 1);
      try lia; cycle 1.
    { digits_of (3 * Z.pos m) 25 25. rewrite fexp32. lia. }
    { assert (2 ^ 23 ≤ Z.pos q < 2 ^ 24) by rne_solve.
      digits_of (Z.pos q) 24 24. rewrite fexp32. lia. }
    rewrite (f32_add_overflow s q m m (103 + 1) 103 103 1 0
               (2 * Z.pos q + Z.pos m) 2); try lia.
    + apply Hmul.
    + assert (2 ^ 25 ≤ 2 * Z.pos q + Z.pos m < 2 ^ 26) by rne_solve.
      digits_of (2 * Z.pos q + Z.pos m) 26 26. rewrite fexp32. lia.
    + rne_solve.
    + digits_of (Z.pos m) 24 24. rewrite fexp32. lia.
  - rewrite (f32_add_overflow s m m q' (103 + 1) 103 103 1 0 (3 * Z.pos m) 2);
      try lia.
    + by rewrite Hinf, Hmul.
    + digits_of (3 * Z.pos m) 26 26. rewrite fexp32. lia.
    + assert (2 ^ 23 ≤ Z.pos q' < 2 ^ 24) by rne_solve.
      digits_of (Z.pos q') 24 24. rewrite fexp32. lia.
Qed.

(** ** Constant grids *)

Lemma cell_const_grid (N M i j : Z) (c : float32) :
  0 ≤ i < N → 0 ≤ j < M → cell (const_grid N M c) M i j = c.
Proof.
  intros Hi Hj. unfold cell, const_grid, idx_of.
  apply lookup_total_replicate_2. nia.
Qed.

Lemma stencil_cell_const (N M i j : Z) (c : float32) :
  0 ≤ i < N → 0 ≤ j < M → no_overflow4 c →
  stencil_cell (const_grid N M c) N M i j = c.
Proof.
  intros Hi Hj Hc. unfold stencil_cell.
  destruct (decide (on_border N M i j)) as [Hb|Hb].
  - by apply cell_const_grid.
  - unfold on_border in Hb.
    rewrite !cell_const_grid by lia. by apply average4_const.
Qed.

Lemma stencil_const (N M : Z) (c : float32) :
  1 ≤ M → no_overflow4 c →
  stencil (const_grid N M c) N M = const_grid N M c.
Proof.
  intros HM Hc. apply list_eq. intros k. unfold stencil.
  rewrite list_lookup_fmap.
  destruct (decide (Z.of_nat k < N * M)) as [Hk|Hk].
  - rewrite lookup_seq_lt by lia. simpl.
    pose proof (Z.div_mod (Z.of_nat k) M ltac:(lia)) as Hdm.
    pose proof (Z.mod_pos_bound (Z.of_nat k) M ltac:(lia)) as Hmod.
    assert (0 ≤ Z.of_nat k / M < N) as Hdiv.
    { split; [apply Z.div_pos; lia|apply Z.div_lt_upper_bound; nia]. }
    unfold stencil_at. rewrite stencil_cell_const by done.
    symmetry. apply lookup_replicate_2. lia.
  - rewrite lookup_seq_ge by lia. simpl. symmetry.
    apply lookup_ge_None. unfold const_grid. rewrite length_replicate. lia.
Qed.

Lemma const_grid_length (N M : Z) (c : float32) :
  0 ≤ N * M → Z.of_nat (length (const_grid N M c)) = N * M.
Proof. intros H. unfold const_grid. rewrite length_replicate. lia. Qed.

(** ** The part of a turn that does not depend on the output buffer *)

Lemma Col_body_write inp N M i j out :
  Col_body inp N M i j out
  = Col_write inp N M i j ≫= λ p, store out p.1 p.2.
Proof.
  unfold Col_body, Col_write.
  repeat match goal with
         | |- (?m ≫= _) = ((?m ≫= _) ≫= _) => destruct m; simpl; [|done]
         | |- (if ?b then _ else _) = _ => destruct b
         | |- _ => done
         end.
Qed.

Lemma int_ok_inv z z' : int_ok z = Ok z' → z' = z ∧ INT_MIN ≤ z ≤ INT_MAX.
Proof.
  unfold int_ok. case_decide as Hr; intros E; [|discriminate].
  by injection E as <-.
Qed.

Lemma lin_inv M r c k : lin M r c = Ok k → k = r * M + c.
Proof.
  unfold lin, int_mul, int_add. intros H.
  destruct (int_ok (r * M)) as [t|] eqn:Et; [|done]. simpl in H.
  apply int_ok_inv in Et as [-> _]. by apply int_ok_inv in H as [-> _].
Qed.

Lemma Col_write_idx inp N M i j k v :
  Col_write inp N M i j = Ok (k, v) → k = i * M + j.
Proof.
  unfold Col_write. intros H.
  destruct (lin M i j) as [idx|] eqn:E; [|done]. simpl in H.
  apply lin_inv in E. subst idx.
  repeat match type of H with
         | (?m ≫= _) = _ => destruct m; simpl in H; [|done]
         | (if ?b then _ else _) = _ => destruct b
         end; by inversion H.
Qed.

(** ** Two runs of a loop side by side *)

Lemma res_rel_bind {A B} (R : A → A → Prop) (S : B → B → Prop)
    (m1 m2 : res A) (k1 k2 : A → res B) :
  res_rel R m1 m2 →
  (∀ a1 a2, R a1 a2 → res_rel S (k1 a1) (k2 a2)) →
  res_rel S (m1 ≫= k1) (m2 ≫= k2).
Proof. destruct m1, m2; simpl; intros H Hk; try done. by apply Hk. Qed.

Lemma for_from_rel {St} (R : Z → St → St → Prop) (body : Z → St → res St)
    lo cnt s1 s2 :
  R lo s1 s2 →
  (∀ k t1 t2, lo ≤ k < lo + Z.of_nat cnt → R k t1 t2 →
              res_rel (R (k + 1)) (body k t1) (body k t2)) →
  res_rel (R (lo + Z.of_nat cnt))
          (for_from lo cnt body s1) (for_from lo cnt body s2).
Proof.
  revert lo s1 s2. induction cnt as [|c IH]; intros lo s1 s2 H0 Hstep.
  - simpl. by replace (lo + Z.of_nat 0) with lo by lia.
  - cbn [for_from]. apply (res_rel_bind (R (lo + 1))).
    + apply Hstep; [lia|done].
    + intros a1 a2 Ha.
      replace (lo + Z.of_nat (S c)) with (lo + 1 + Z.of_nat c) by lia.
      apply IH; [done|]. intros k t1 t2 Hk. apply Hstep. lia.
Qed.

Lemma for_int_rel {St} (R : Z → St → St → Prop) (body : Z → St → res St)
    hi s1 s2 :
  0 ≤ hi → R 0 s1 s2 →
  (∀ k t1 t2, 0 ≤ k < hi → R k t1 t2 →
              res_rel (R (k + 1)) (body k t1) (body k t2)) →
  res_rel (R hi) (for_int hi body s1) (for_int hi body s2).
Proof.
  intros Hhi H0 Hstep. unfold for_int.
  replace hi with (0 + Z.of_nat (Z.to_nat hi)) at 1 by lia.
  apply for_from_rel; [done|]. intros k t1 t2 Hk. apply Hstep. lia.
Qed.

(** One turn keeps two output buffers in step. *)
Lemma Col_body_agree inp N M i j t1 t2 :
  0 ≤ i → 0 ≤ j → 0 < M →
  agree (i * M + j) t1 t2 →
  res_rel (agree (i * M + (j + 1)))
          (Col_body inp N M i j t1) (Col_body inp N M i j t2).
Proof.
  intros Hi Hj HM [Hlen Hk]. rewrite !Col_body_write.
  destruct (Col_write inp N M i j) as [[k v]|f] eqn:E; simpl; [|done].
  apply Col_write_idx in E. subst k. unfold store. rewrite Hlen.
  case_decide as Hin; simpl; [|done].
  split; [by rewrite !length_insert|].
  intros k Hk'. destruct (decide (k = Z.to_nat (i * M + j))) as [->|Hne].
  - rewrite !list_lookup_insert_eq by lia. done.
  - rewrite !list_lookup_insert_ne by done. apply Hk. lia.
Qed.

Lemma Col_Loop_agree inp N M i t1 t2 :
  0 ≤ i →
  agree (i * M) t1 t2 →
  res_rel (agree ((i + 1) * M))
          (Col_Loop inp N M i t1) (Col_Loop inp N M i t2).
Proof.
  intros Hi Ht. unfold Col_Loop.
  destruct (decide (M ≤ 0)) as [HM|HM].
  - rewrite !for_int_nonpos by done. simpl.
    destruct Ht as [Hlen Hk]. split; [done|]. intros k Hk'. apply Hk. nia.
  - replace ((i + 1) * M) with (i * M + M) by lia.
    apply (for_int_rel (λ j, agree (i * M + j))); [lia| |].
    + by replace (i * M + 0) with (i * M) by lia.
    + intros j u1 u2 Hj Hu. apply Col_body_agree; [lia..|done].
Qed.

(** The cells the kernel delivers do not depend on what the output buffer
    held before the call. *)
Lemma jacobi2d_hls_agree inp out1 out2 N M :
  length out1 = length out2 →
  res_rel (same_cells N M)
          (jacobi2d_hls inp out1 N M) (jacobi2d_hls inp out2 N M).
Proof.
  intros Hlen. unfold jacobi2d_hls.
  destruct (decide (N ≤ 0)) as [HN|HN].
  { rewrite !for_int_nonpos by done. simpl. intros i j Hi. lia. }
  assert (res_rel (agree (N * M)) (for_int N (Col_Loop inp N M) out1)
            (for_int N (Col_Loop inp N M) out2)) as H.
  { apply (for_int_rel (λ i, agree (i * M))); [lia| |].
    - split; [done|]. intros k Hk. lia.
    - intros i t1 t2 Hi Ht. apply Col_Loop_agree; [lia|done]. }
  destruct (for_int N _ out1), (for_int N _ out2); simpl in *; try done.
  destruct H as [_ Hk]. intros i j Hi Hj. apply Hk. unfold idx_of. nia.
Qed.

(** ** The test bench *)

Lemma int_mul_ok a b : INT_MIN ≤ a * b ≤ INT_MAX → int_mul a b = Ok (a * b).
Proof. apply int_ok_in. Qed.

Lemma vector_new_ok n :
  0 ≤ n → vector_new n = Ok (replicate (Z.to_nat n) f32_zero).
Proof. intros H. unfold vector_new. by rewrite decide_False by lia. Qed.

Lemma init_grid_ok a N M :
  1 ≤ N → 1 ≤ M → Z.of_nat (length a) = N * M →
  init_grid a N M = Ok (initial_grid N M).
Proof.
  intros HN HM Ha. unfold init_grid.
  destruct (for_int_inv
    (λ j s, length s = length a ∧
            ∀ k : nat, (k < length a)%nat →
              s !! k = Some (if decide (Z.of_nat k < j) then f32_one else f32_zero))
    (λ j a, store a j f32_one) M (replicate (length a) f32_zero))
    as (r & -> & Hlen & Hr); [lia| | |].
  - split; [by rewrite length_replicate|]. intros k Hk.
    rewrite decide_False by lia. by apply lookup_replicate_2.
  - intros j t Hj [Hlen Ht]. eexists. split; [apply store_in; nia|].
    split; [by rewrite length_insert|]. intros k Hk.
    destruct (decide (k = Z.to_nat j)) as [->|Hne].
    + rewrite list_lookup_insert_eq by lia. by rewrite decide_True by lia.
    + rewrite list_lookup_insert_ne by done. rewrite Ht by done.
      destruct (decide (Z.of_nat k < j)); [by rewrite decide_True by lia|].
      by rewrite decide_False by lia.
  - f_equal. apply list_eq. intros k. unfold initial_grid.
    rewrite list_lookup_fmap.
    destruct (decide (Z.of_nat k < N * M)) as [Hk|Hk].
    + rewrite lookup_seq_lt by lia. simpl. rewrite Hr by lia. f_equal.
      destruct (decide (Z.of_nat k < M)) as [Hlt|Hge].
      * by rewrite decide_True by (apply Z.div_small; lia).
      * rewrite decide_False; [done|]. intros H0.
        apply Z.div_small_iff in H0; lia.
    + rewrite lookup_seq_ge by lia. simpl. apply lookup_ge_None. lia.
Qed.

Lemma initial_grid_length N M :
  length (initial_grid N M) = Z.to_nat (N * M).
Proof. unfold initial_grid. by rewrite length_fmap, length_seq. Qed.

Lemma updated_length N M T g :
  length g = Z.to_nat (N * M) → length (updated N M T g) = Z.to_nat (N * M).
Proof.
  intros Hg. unfold updated. induction T as [|T IH]; [done|].
  simpl. apply stencil_length.
Qed.

(** The iteration loop: after [T] turns the first buffer holds the grid
    updated [T] times, whatever the second buffer held at the start. *)
Lemma iterate_ok N M T a b :
  1 ≤ N → 1 ≤ M → N * M ≤ 2 ^ 31 → 0 ≤ T →
  length a = Z.to_nat (N * M) → length b = Z.to_nat (N * M) →
  ∃ b', for_int T (iterate_body N M) (a, b)
        = Ok (updated N M (Z.to_nat T) a, b').
Proof.
  intros HN HM Hfit HT Ha Hb.
  destruct (for_int_inv
    (λ t (ab : list float32 * list float32),
       ab.1 = updated N M (Z.to_nat t) a ∧ length ab.2 = Z.to_nat (N * M))
    (iterate_body N M) T (a, b)) as ([a' b'] & -> & Ha' & _); [done|done| |].
  - intros t [x y] Ht [Hx Hy]. simpl in Hx, Hy. subst x.
    unfold iterate_body. cbn [fst snd].
    rewrite jacobi2d_hls_stencil; [|done|..]; cycle 1.
    { rewrite updated_length by done. nia. }
    { done. } { done. } { nia. }
    simpl. eexists. split; [done|]. cbn [fst snd]. split.
    + replace (Z.to_nat (t + 1)) with (S (Z.to_nat t)) by lia. done.
    + by apply updated_length.
  - simpl in Ha'. subst a'. by exists b'.
Qed.

Lemma sum_ok a n :
  Z.of_nat (length a) = n →
  for_int n (sum_body a) f64_zero = Ok (checksum a).
Proof.
  intros Hn.
  destruct (for_int_inv
    (λ i s, s = checksum (take (Z.to_nat i) a))
    (sum_body a) n f64_zero) as (r & -> & ->); [lia|done| |].
  - intros i s Hi ->. unfold sum_body.
    destruct (lookup_lt_is_Some_2 a (Z.to_nat i)) as [v Hv]; [lia|].
    rewrite (load_Some _ _ v) by (done || lia). simpl.
    eexists. split; [done|].
    replace (Z.to_nat (i + 1)) with (S (Z.to_nat i)) by lia.
    rewrite (take_S_r _ _ v) by done.
    unfold checksum. by rewrite foldl_app.
  - by rewrite take_ge by lia.
Qed.

Lemma run_ok N M T :
  1 ≤ N → 1 ≤ M → N * M ≤ INT_MAX → 0 ≤ T →
  run N M T
  = Ok (report N M T (checksum (updated N M (Z.to_nat T) (initial_grid N M)))).
Proof.
  intros HN HM Hfit HT. unfold run.
  rewrite int_mul_ok by int_range. simpl.
  rewrite vector_new_ok by lia. simpl.
  rewrite init_grid_ok; [|done|done|]; cycle 1.
  { rewrite length_replicate. lia. }
  simpl.
  destruct (iterate_ok N M T (initial_grid N M) (initial_grid N M))
    as [b' ->]; [done|done|int_range|done|apply initial_grid_length..|].
  simpl. rewrite sum_ok; [done|].
  rewrite updated_length by apply initial_grid_length. lia.
Qed.

Lemma main_run argv N M T :
  parse_args argv = Ok (N, M, T) → main argv = run N M T.
Proof. intros H. unfold main. by rewrite H. Qed.

(** ** Calls that overflow the index arithmetic *)

Lemma bind_faulty_Ok {A B} (m : res A) (a : A) (k : A → res B) :
  m = Ok a → faulty (k a) → faulty (m ≫= k).
Proof. by intros ->. Qed.

Lemma faulty_Fault {A} (f : fault) : faulty (@Fault A f).
Proof. by exists f. Qed.

(** Runs a computation on known integers up to its fault; the values that
    come out of the input buffer are left open. *)
Ltac fault_step :=
  lazymatch goal with
  | |- faulty (Fault _) => apply faulty_Fault
  | |- faulty (load _ _ ≫= _) => apply bind_faulty_r; intros ?
  | |- faulty (?m ≫= ?k) =>
      let v := eval vm_compute in m in
      lazymatch v with
      | Ok ?a => apply (bind_faulty_Ok m a k); [vm_compute; reflexivity|]; cbv beta
      | Fault ?f => apply bind_faulty_l; exists f; vm_compute; reflexivity
      end
  | |- faulty (if ?b then _ else _) =>
      let v := eval vm_compute in b in
      change b with v; cbv iota
  end.

Ltac fault_run := rewrite Col_body_write; apply bind_faulty_l; unfold Col_write;
  repeat fault_step.

(** 3 rows of [2^30] columns: the lower neighbour of cell (1,1) has index
    [2*2^30 + 1], and [2*2^30] is not an [int]. *)
Lemma overflow_3_rows inp out : faulty (jacobi2d_hls inp out 3 (2 ^ 30)).
Proof.
  apply (jacobi2d_hls_faulty _ _ _ _ 1 1); [lia|lia|]. intros t. fault_run.
Qed.

(** [65536] rows and columns: row [32768] starts at index [2^31]. *)
Lemma overflow_square_65536 inp out : faulty (jacobi2d_hls inp out 65536 65536).
Proof.
  apply (jacobi2d_hls_faulty _ _ _ _ 32768 0); [lia|lia|]. intros t. fault_run.
Qed.

(** 2 rows of [2^30 + 1] columns: cell [(1, 2^30 - 1)] has index [2^31]. *)
Lemma overflow_2_rows inp out : faulty (jacobi2d_hls inp out 2 (2 ^ 30 + 1)).
Proof.
  apply (jacobi2d_hls_faulty _ _ _ _ 1 (2 ^ 30 - 1)); [lia|lia|].
  intros t. fault_run.
Qed.

(** [46341] rows and columns: cell [(46340, 41708)] has index [2^31]. *)
Lemma overflow_square_46341 inp out : faulty (jacobi2d_hls inp out 46341 46341).
Proof.
  apply (jacobi2d_hls_faulty _ _ _ _ 46340 41708); [lia|lia|].
  intros t. fault_run.
Qed.

(** ** The printed line *)

Lemma count_newlines_app s1 s2 :
  count_newlines (s1 +:+ s2) = (count_newlines s1 + count_newlines s2)%nat.
Proof. induction s1 as [|c s1 IH]; simpl; [done|]. rewrite IH. lia. Qed.

Lemma digit_char_not_newline d :
  Ascii.eqb (digit_char (d mod 10)) (ascii_of_nat 10) = false.
Proof.
  pose proof (Z.mod_pos_bound d 10 ltac:(lia)) as H.
  assert (d mod 10 = 0 ∨ d mod 10 = 1 ∨ d mod 10 = 2 ∨ d mod 10 = 3 ∨
          d mod 10 = 4 ∨ d mod 10 = 5 ∨ d mod 10 = 6 ∨ d mod 10 = 7 ∨
          d mod 10 = 8 ∨ d mod 10 = 9) as Hd by lia.
  repeat destruct Hd as [-> | Hd]; try reflexivity. by rewrite Hd.
Qed.

Lemma dec_fixed_no_newline w n : count_newlines (dec_fixed w n) = O.
Proof.
  revert n. induction w as [|w IH]; intros n; [done|].
  cbn [dec_fixed]. rewrite count_newlines_app, IH. cbn [count_newlines].
  by rewrite digit_char_not_newline.
Qed.

Lemma dec_nat_no_newline fuel n : count_newlines (dec_nat fuel n) = O.
Proof.
  revert n. induction fuel as [|f IH]; intros n; [done|].
  cbn [dec_nat]. rewrite count_newlines_app. cbn [count_newlines].
  rewrite digit_char_not_newline. case_decide; [done|]. by rewrite IH.
Qed.

Lemma fmt_d_no_newline n : count_newlines (fmt_d n) = O.
Proof.
  unfold fmt_d, dec_unsigned. case_decide; [|apply dec_nat_no_newline].
  cbn [count_newlines]. by rewrite dec_nat_no_newline.
Qed.

Lemma fmt_6f_no_newline x : count_newlines (fmt_6f x) = O.
Proof.
  destruct x as [[]|[]| |[] m e]; try reflexivity; unfold fmt_6f, dec_unsigned;
    rewrite !count_newlines_app, dec_nat_no_newline, dec_fixed_no_newline;
    reflexivity.
Qed.

Lemma report_one_line N M T sum : count_newlines (report N M T sum) = 1%nat.
Proof.
  unfold report. rewrite !count_newlines_app, !fmt_d_no_newline, fmt_6f_no_newline.
  reflexivity.
Qed.

(** * The claims *)

(** C1 (amended). For an [N]x[M] input grid with [N, M ≥ 1] and
    [N*M ≤ 2^31] (so that every index up to [N*M - 1] is an [int]) and an
    interior cell [(i, j)], one call of the kernel succeeds and delivers
    [out[i,j] = 0.25f * (((up + down) + left) + right)] in binary32
    arithmetic, the four neighbours being read from the input grid. *)
Theorem C1_interior_average (inp out : list float32) (N M i j : Z) :
  1 ≤ N → 1 ≤ M → N * M ≤ 2 ^ 31 →
  Z.of_nat (length inp) = N * M → Z.of_nat (length out) = N * M →
  0 < i < N - 1 → 0 < j < M - 1 →
  ∃ r up down left right,
    jacobi2d_hls inp out N M = Ok r ∧
    inp !! idx_of M (i - 1) j = Some up ∧
    inp !! idx_of M (i + 1) j = Some down ∧
    inp !! idx_of M i (j - 1) = Some left ∧
    inp !! idx_of M i (j + 1) = Some right ∧
    r !! idx_of M i j
    = Some (f32_mul f32_quarter
              (f32_add (f32_add (f32_add up down) left) right)).
Proof.
  intros HN HM Hfit Hinp Hout Hi Hj.
  exists (stencil inp N M), (cell inp M (i - 1) j), (cell inp M (i + 1) j),
    (cell inp M i (j - 1)), (cell inp M i (j + 1)).
  split; [by apply jacobi2d_hls_stencil|].
  rewrite !(cell_lookup inp N M) by (done || lia).
  repeat (split; [done|]).
  rewrite stencil_lookup by lia. unfold stencil_cell.
  rewrite decide_False by (unfold on_border; lia). done.
Qed.

Lemma C1_interior_average_witness :
  ∃ r up down left right,
    jacobi2d_hls grid44 (replicate 16 f32_zero) 4 4 = Ok r ∧
    grid44 !! idx_of 4 (1 - 1) 1 = Some up ∧
    grid44 !! idx_of 4 (1 + 1) 1 = Some down ∧
    grid44 !! idx_of 4 1 (1 - 1) = Some left ∧
    grid44 !! idx_of 4 1 (1 + 1) = Some right ∧
    r !! idx_of 4 1 1
    = Some (f32_mul f32_quarter
              (f32_add (f32_add (f32_add up down) left) right)).
Proof.
  apply (C1_interior_average grid44 (replicate 16 f32_zero) 4 4 1 1);
    (lia || reflexivity).
Defined.

(** C1 as stated fails: a 3 x [2^30] grid has the interior cell (1,1), and
    the call faults on the index of its lower neighbour. *)
Lemma C1_counterexample_wide_grid :
  Z.of_nat (length (const_grid 3 (2 ^ 30) f32_zero)) = 3 * 2 ^ 30 ∧
  (0 < 1 < 3 - 1 ∧ 0 < 1 < 2 ^ 30 - 1) ∧
  faulty (jacobi2d_hls (const_grid 3 (2 ^ 30) f32_zero)
            (const_grid 3 (2 ^ 30) f32_zero) 3 (2 ^ 30)).
Proof.
  split; [apply const_grid_length; lia|].
  split; [lia|]. apply overflow_3_rows.
Qed.

(** C2 (amended). For an [N]x[M] input grid with [N, M ≥ 1] and
    [N*M ≤ 2^31] and a border cell [(i, j)], one call of the kernel
    succeeds and delivers [out[i,j] = in[i,j]]. *)
Theorem C2_border_copy (inp out : list float32) (N M i j : Z) :
  1 ≤ N → 1 ≤ M → N * M ≤ 2 ^ 31 →
  Z.of_nat (length inp) = N * M → Z.of_nat (length out) = N * M →
  0 ≤ i < N → 0 ≤ j < M →
  i = 0 ∨ i = N - 1 ∨ j = 0 ∨ j = M - 1 →
  ∃ r v,
    jacobi2d_hls inp out N M = Ok r ∧
    inp !! idx_of M i j = Some v ∧
    r !! idx_of M i j = Some v.
Proof.
  intros HN HM Hfit Hinp Hout Hi Hj Hb.
  exists (stencil inp N M), (cell inp M i j).
  split; [by apply jacobi2d_hls_stencil|].
  split; [by apply (cell_lookup inp N M)|].
  rewrite stencil_lookup by lia. unfold stencil_cell.
  rewrite decide_True by (unfold on_border; lia). done.
Qed.

Lemma C2_border_copy_witness :
  ∃ r v,
    jacobi2d_hls grid44 (replicate 16 f32_zero) 4 4 = Ok r ∧
    grid44 !! idx_of 4 3 2 = Some v ∧
    r !! idx_of 4 3 2 = Some v.
Proof.
  apply (C2_border_copy grid44 (replicate 16 f32_zero) 4 4 3 2);
    (lia || reflexivity).
Defined.

(** C2 as stated fails: in a 65536 x 65536 grid the border cell
    (32768, 0) has index [2^31], and the call faults on it. *)
Lemma C2_counterexample_square_grid :
  Z.of_nat (length (const_grid 65536 65536 f32_zero)) = 65536 * 65536 ∧
  (0 ≤ 32768 < 65536 ∧ (0 : Z) = 0) ∧
  faulty (jacobi2d_hls (const_grid 65536 65536 f32_zero)
            (const_grid 65536 65536 f32_zero) 65536 65536).
Proof.
  split; [apply const_grid_length; lia|].
  split; [lia|]. apply overflow_square_65536.
Qed.

(** C4 (amended). For [N, M ≥ 1] with [N ≤ 2] or [M ≤ 2] and
    [N*M ≤ 2^31], one call of the kernel delivers the input grid. *)
Theorem C4_degenerate_identity (inp out : list float32) (N M : Z) :
  1 ≤ N → 1 ≤ M → N ≤ 2 ∨ M ≤ 2 → N * M ≤ 2 ^ 31 →
  Z.of_nat (length inp) = N * M → Z.of_nat (length out) = N * M →
  jacobi2d_hls inp out N M = Ok inp.
Proof.
  intros HN HM Hdeg Hfit Hinp Hout.
  rewrite jacobi2d_hls_stencil by done.
  by rewrite stencil_degenerate.
Qed.

Lemma C4_degenerate_identity_witness :
  jacobi2d_hls [f32_one; f32_quarter; f32_zero; f32_one; f32_one; f32_zero]
    (replicate 6 f32_zero) 2 3
  = Ok [f32_one; f32_quarter; f32_zero; f32_one; f32_one; f32_zero].
Proof.
  apply (C4_degenerate_identity _ (replicate 6 f32_zero) 2 3);
    (lia || reflexivity).
Defined.

(** C4 as stated fails: with 2 rows of [2^30 + 1] columns the call
    faults on the index of cell [(1, 2^30 - 1)]. *)
Lemma C4_counterexample_two_rows :
  Z.of_nat (length (const_grid 2 (2 ^ 30 + 1) f32_zero)) = 2 * (2 ^ 30 + 1) ∧
  faulty (jacobi2d_hls (const_grid 2 (2 ^ 30 + 1) f32_zero)
            (const_grid 2 (2 ^ 30 + 1) f32_zero) 2 (2 ^ 30 + 1)).
Proof.
  split; [apply const_grid_length; lia|]. apply overflow_2_rows.
Qed.

(** C5 (amended). For [N, M ≥ 1] with [N*M ≤ 2^31] and a binary32 value
    [c] that is a NaN, an infinity, a zero, or a finite value of magnitude
    below [2^126], the grid with every cell equal to [c] is a fixed point
    of the kernel, under the kernel's own order of summation. *)
Theorem C5_constant_fixed_point (c : float32) (out : list float32) (N M : Z) :
  1 ≤ N → 1 ≤ M → N * M ≤ 2 ^ 31 → no_overflow4 c →
  Z.of_nat (length out) = N * M →
  jacobi2d_hls (const_grid N M c) out N M = Ok (const_grid N M c).
Proof.
  intros HN HM Hfit Hc Hout.
  rewrite jacobi2d_hls_stencil; [|done|apply const_grid_length; lia|done..].
  by rewrite stencil_const.
Qed.

Lemma C5_constant_fixed_point_witness :
  jacobi2d_hls (const_grid 3 3 f32_one) (replicate 9 f32_zero) 3 3
  = Ok (const_grid 3 3 f32_one).
Proof.
  apply (C5_constant_fixed_point f32_one (replicate 9 f32_zero) 3 3);
    [lia|lia|lia| |reflexivity].
  split; [reflexivity|lia].
Defined.

(** C5 as stated fails: on the 3 x 3 grid with every cell [FLT_MAX] the
    sum overflows and the interior cell becomes [+infinity]. *)
Lemma C5_counterexample_FLT_MAX :
  ∃ r, jacobi2d_hls (const_grid 3 3 FLT_MAX) (replicate 9 f32_zero) 3 3 = Ok r ∧
       r !! idx_of 3 1 1 = Some (S754_infinity false) ∧
       r !! idx_of 3 1 1 ≠ Some FLT_MAX.
Proof. eexists. split; [vm_compute; reflexivity|]. split; [reflexivity|done]. Qed.

(** C8. The 4 x 4 scenario: after one update cells (1,1) and (1,2) hold
    0.25 and every cell of rows 0 and 3 and of columns 0 and 3 holds its
    input value. *)
Theorem C8_scenario_4x4 (out : list float32) :
  length out = 16%nat →
  ∃ r, jacobi2d_hls grid44 out 4 4 = Ok r ∧
       r !! idx_of 4 1 1 = Some f32_quarter ∧
       r !! idx_of 4 1 2 = Some f32_quarter ∧
       ∀ i j, 0 ≤ i < 4 → 0 ≤ j < 4 → i = 0 ∨ i = 3 ∨ j = 0 ∨ j = 3 →
              r !! idx_of 4 i j = grid44 !! idx_of 4 i j.
Proof.
  intros Hout. exists (stencil grid44 4 4).
  split; [apply jacobi2d_hls_stencil; (lia || reflexivity)|].
  split; [reflexivity|]. split; [reflexivity|].
  intros i j Hi Hj Hb.
  assert (i = 0 ∨ i = 1 ∨ i = 2 ∨ i = 3) as Hi' by lia.
  assert (j = 0 ∨ j = 1 ∨ j = 2 ∨ j = 3) as Hj' by lia.
  destruct Hi' as [ -> | [ -> | [ -> | -> ] ] ], Hj' as [ -> | [ -> | [ -> | -> ] ] ];
    (reflexivity || lia).
Qed.

Lemma C8_scenario_4x4_witness :
  ∃ r, jacobi2d_hls grid44 (replicate 16 FLT_MAX) 4 4 = Ok r ∧
       r !! idx_of 4 1 1 = Some f32_quarter ∧
       r !! idx_of 4 1 2 = Some f32_quarter ∧
       ∀ i j, 0 ≤ i < 4 → 0 ≤ j < 4 → i = 0 ∨ i = 3 ∨ j = 0 ∨ j = 3 →
              r !! idx_of 4 i j = grid44 !! idx_of 4 i j.
Proof. apply (C8_scenario_4x4 (replicate 16 FLT_MAX)). reflexivity. Defined.

(** C9. With [N ≤ 0] or [M ≤ 0] the kernel writes nothing: the call
    succeeds and the output buffer is as it was. *)
Theorem C9_nonpositive_noop (inp out : list float32) (N M : Z) :
  N ≤ 0 ∨ M ≤ 0 → jacobi2d_hls inp out N M = Ok out.
Proof. apply jacobi2d_hls_nonpos. Qed.

Lemma C9_nonpositive_noop_witness :
  jacobi2d_hls [] [f32_one; f32_quarter] 7 (-2) = Ok [f32_one; f32_quarter].
Proof. apply (C9_nonpositive_noop [] [f32_one; f32_quarter] 7 (-2)). right. lia. Defined.

(** C3 (amended). When the arguments give [N, M ≥ 1] with [N*M] an [int]
    and [T ≥ 0], the driver prints exactly one line,
    [HLS csim done: N=<N> M=<M> iters=<T> checksum=<S>], where [S] is the
    sum of the cells of the grid obtained from the starting grid (1.0 on
    row 0, 0.0 elsewhere) by [T] kernel calls, printed with six decimals.
    Each kernel call delivers the update of its input whatever the other
    buffer held. *)
Theorem C3_driver_report (argv : list string) (N M T : Z) :
  parse_args argv = Ok (N, M, T) →
  1 ≤ N → 1 ≤ M → N * M ≤ INT_MAX → 0 ≤ T →
  let final := updated N M (Z.to_nat T) (initial_grid N M) in
  let line :=
    "HLS csim done: N=" +:+ fmt_d N +:+ " M=" +:+ fmt_d M
    +:+ " iters=" +:+ fmt_d T
    +:+ " checksum=" +:+ fmt_6f (checksum final) +:+ newline in
  main argv = Ok line ∧
  count_newlines line = 1%nat ∧
  ∀ g out : list float32,
    Z.of_nat (length g) = N * M → Z.of_nat (length out) = N * M →
    jacobi2d_hls g out N M = Ok (stencil g N M).
Proof.
  intros Hargs HN HM Hfit HT final line.
  split; [|split].
  - rewrite (main_run argv N M T) by done. by rewrite run_ok.
  - apply report_one_line.
  - intros g out Hg Hout. apply jacobi2d_hls_stencil; [int_range|done..].
Qed.

Lemma C3_driver_report_witness :
  let final := updated 4 4 (Z.to_nat 1) (initial_grid 4 4) in
  let line :=
    "HLS csim done: N=" +:+ fmt_d 4 +:+ " M=" +:+ fmt_d 4
    +:+ " iters=" +:+ fmt_d 1
    +:+ " checksum=" +:+ fmt_6f (checksum final) +:+ newline in
  main ["tb_jacobi_hls"; "4"; "4"; "1"] = Ok line ∧
  count_newlines line = 1%nat ∧
  ∀ g out : list float32,
    Z.of_nat (length g) = 4 * 4 → Z.of_nat (length out) = 4 * 4 →
    jacobi2d_hls g out 4 4 = Ok (stencil g 4 4).
Proof.
  apply (C3_driver_report ["tb_jacobi_hls"; "4"; "4"; "1"] 4 4 1);
    [reflexivity|lia|lia|vm_compute; discriminate|lia].
Defined.

(** C3 as stated fails: for [N = M = 65536] the size [N*M] of the two
    buffers is not an [int], and the driver prints nothing. *)
Lemma C3_counterexample_size_overflow :
  parse_args ["tb_jacobi_hls"; "65536"; "65536"; "0"] = Ok (65536, 65536, 0) ∧
  main ["tb_jacobi_hls"; "65536"; "65536"; "0"] = Fault SignedOverflow.
Proof. split; reflexivity. Qed.

(** C6. The driver reads [N] and [M] from the first two arguments only
    when both are there, and [iters] from the third only when it is
    there; otherwise [N = M = 1024] and [iters = 10]. *)
Theorem C6_argument_defaults :
  parse_args [] = Ok (1024, 1024, 10) ∧
  (∀ prog, parse_args [prog] = Ok (1024, 1024, 10)) ∧
  (∀ prog a1, parse_args [prog; a1] = Ok (1024, 1024, 10)) ∧
  (∀ prog a1 a2,
     parse_args [prog; a1; a2]
     = (n ← atoi a1; m ← atoi a2; Ok (n, m, 10))) ∧
  (∀ prog a1 a2 a3 rest,
     parse_args (prog :: a1 :: a2 :: a3 :: rest)
     = (n ← atoi a1; m ← atoi a2; t ← atoi a3; Ok (n, m, t))).
Proof.
  repeat split.
  - intros prog a1 a2. unfold parse_args. simpl.
    by destruct (atoi a1), (atoi a2).
  - intros prog a1 a2 a3 rest. unfold parse_args.
    rewrite !decide_True by (cbn [length]; lia). simpl.
    by destruct (atoi a1), (atoi a2), (atoi a3).
Qed.

(** C7. Two kernel calls on the same input grid and dimensions end alike,
    whatever the two output buffers (of one size) held before: in the same
    fault, or with the same [N]x[M] cells.  Two driver runs whose
    arguments give the same [N], [M] and [iters] print the same text. *)
Theorem C7_determinism (inp out1 out2 : list float32) (N M : Z)
    (argv1 argv2 : list string) :
  length out1 = length out2 →
  parse_args argv1 = parse_args argv2 →
  res_rel (same_cells N M)
    (jacobi2d_hls inp out1 N M) (jacobi2d_hls inp out2 N M)
  ∧ main argv1 = main argv2.
Proof.
  intros Hlen Hargs. split; [by apply jacobi2d_hls_agree|].
  unfold main. by rewrite Hargs.
Qed.

Lemma C7_determinism_witness :
  res_rel (same_cells 4 4)
    (jacobi2d_hls grid44 (replicate 16 f32_zero) 4 4)
    (jacobi2d_hls grid44 (replicate 16 FLT_MAX) 4 4)
  ∧ main ["tb_jacobi_hls"; "4"; "4"; "1"] = main ["./csim.exe"; "4"; " 4"; "1"].
Proof.
  apply (C7_determinism grid44 (replicate 16 f32_zero) (replicate 16 FLT_MAX)
           4 4 ["tb_jacobi_hls"; "4"; "4"; "1"] ["./csim.exe"; "4"; " 4"; "1"]);
    reflexivity.
Defined.

(** C10 (amended). For [N, M ≥ 1] with [N*M ≤ 2^31]: the index of every
    cell and of the four neighbours of every interior cell is computed
    without overflow and lies in [[0, N*M)]; the kernel call and the
    initialisation of the driver run without an access out of bounds; and
    [N ≥ 1] is needed, for with [N = 0] the buffer is empty and the
    initialisation writes outside it. *)
Theorem C10_indices_in_bounds (inp out : list float32) (N M : Z) :
  1 ≤ N → 1 ≤ M → N * M ≤ 2 ^ 31 →
  Z.of_nat (length inp) = N * M → Z.of_nat (length out) = N * M →
  (∀ i j, 0 ≤ i < N → 0 ≤ j < M →
     lin M i j = Ok (i * M + j) ∧ 0 ≤ i * M + j < N * M) ∧
  (∀ i j, 0 < i < N - 1 → 0 < j < M - 1 →
     (lin M (i - 1) j = Ok ((i - 1) * M + j) ∧ 0 ≤ (i - 1) * M + j < N * M) ∧
     (lin M (i + 1) j = Ok ((i + 1) * M + j) ∧ 0 ≤ (i + 1) * M + j < N * M) ∧
     (lin M i (j - 1) = Ok (i * M + (j - 1)) ∧ 0 ≤ i * M + (j - 1) < N * M) ∧
     (lin M i (j + 1) = Ok (i * M + (j + 1)) ∧ 0 ≤ i * M + (j + 1) < N * M)) ∧
  (∃ r, jacobi2d_hls inp out N M = Ok r) ∧
  (∃ a, init_grid out N M = Ok a) ∧
  faulty (init_grid [] 0 M).
Proof.
  intros HN HM Hfit Hinp Hout.
  assert (∀ i j, 0 ≤ i < N → 0 ≤ j < M →
            lin M i j = Ok (i * M + j) ∧ 0 ≤ i * M + j < N * M) as Hlin.
  { intros i j Hi Hj. split; [by apply (lin_ok N)|nia]. }
  split; [done|]. split.
  { intros i j Hi Hj. repeat split; try apply Hlin; try nia. }
  split; [exists (stencil inp N M); by apply jacobi2d_hls_stencil|].
  split; [exists (initial_grid N M); by apply init_grid_ok|].
  unfold init_grid, for_int.
  destruct (Z.to_nat M) as [|n] eqn:E; [lia|]. simpl. by exists OutOfBounds.
Qed.

Lemma C10_indices_in_bounds_witness :
  (∀ i j, 0 ≤ i < 4 → 0 ≤ j < 4 →
     lin 4 i j = Ok (i * 4 + j) ∧ 0 ≤ i * 4 + j < 4 * 4) ∧
  (∀ i j, 0 < i < 4 - 1 → 0 < j < 4 - 1 →
     (lin 4 (i - 1) j = Ok ((i - 1) * 4 + j) ∧ 0 ≤ (i - 1) * 4 + j < 4 * 4) ∧
     (lin 4 (i + 1) j = Ok ((i + 1) * 4 + j) ∧ 0 ≤ (i + 1) * 4 + j < 4 * 4) ∧
     (lin 4 i (j - 1) = Ok (i * 4 + (j - 1)) ∧ 0 ≤ i * 4 + (j - 1) < 4 * 4) ∧
     (lin 4 i (j + 1) = Ok (i * 4 + (j + 1)) ∧ 0 ≤ i * 4 + (j + 1) < 4 * 4)) ∧
  (∃ r, jacobi2d_hls grid44 (replicate 16 f32_zero) 4 4 = Ok r) ∧
  (∃ a, init_grid (replicate 16 f32_zero) 4 4 = Ok a) ∧
  faulty (init_grid [] 0 4).
Proof.
  apply (C10_indices_in_bounds grid44 (replicate 16 f32_zero) 4 4);
    (lia || reflexivity).
Defined.

(** C10 as stated fails: for [N = M = 46341] the index of cell
    (46340, 41708) is [2^31], which is not an [int], and the call faults. *)
Lemma C10_counterexample_index_overflow :
  Z.of_nat (length (const_grid 46341 46341 f32_zero)) = 46341 * 46341 ∧
  (0 ≤ 46340 < 46341 ∧ 0 ≤ 41708 < 46341 ∧ 46340 * 46341 + 41708 = 2 ^ 31) ∧
  faulty (jacobi2d_hls (const_grid 46341 46341 f32_zero)
            (const_grid 46341 46341 f32_zero) 46341 46341).
Proof.
  split; [apply const_grid_length; lia|].
  split; [lia|]. apply overflow_square_46341.
Qed.

(** * Further properties of the code *)

(** ** Buffers larger than the grid *)

Lemma load_take (buf : list float32) (n : nat) (k : Z) :
  0 ≤ k < Z.of_nat n → load (take n buf) k = load buf k.
Proof.
  intros Hk. unfold load. rewrite !decide_True by lia.
  by rewrite lookup_take_lt by lia.
Qed.

Lemma for_from_ext {St} (body1 body2 : Z → St → res St) lo cnt s :
  (∀ k t, lo ≤ k < lo + Z.of_nat cnt → body1 k t = body2 k t) →
  for_from lo cnt body1 s = for_from lo cnt body2 s.
Proof.
  revert lo s. induction cnt as [|c IH]; intros lo s H; [done|].
  cbn [for_from]. rewrite H by lia. destruct (body2 lo s) as [t|]; [|done].
  simpl. apply IH. intros k u Hk. apply H. lia.
Qed.

Lemma for_int_ext {St} (body1 body2 : Z → St → res St) hi s :
  (∀ k t, 0 ≤ k < hi → body1 k t = body2 k t) →
  for_int hi body1 s = for_int hi body2 s.
Proof. intros H. apply for_from_ext. intros k t Hk. apply H. lia. Qed.

(** What a turn writes depends on the first [N*M] cells of [in] only. *)
Lemma Col_write_take inp N M i j :
  N * M ≤ 2 ^ 31 → 0 ≤ i < N → 0 ≤ j < M →
  Col_write (take (Z.to_nat (N * M)) inp) N M i j = Col_write inp N M i j.
Proof.
  intros Hfit Hi Hj. unfold Col_write.
  rewrite (lin_ok N) by done. rewrite !bind_Ok.
  rewrite (is_boundary_ok N) by done. rewrite !bind_Ok.
  destruct (bool_decide (on_border N M i j)) eqn:Hb.
  - by rewrite load_take by nia.
  - apply bool_decide_eq_false in Hb. unfold on_border in Hb.
    unfold int_sub, int_add.
    repeat first
      [ rewrite bind_Ok
      | rewrite int_ok_in by int_range
      | rewrite (lin_ok N) by (done || lia)
      | match goal with
        | |- (load (take _ _) ?k ≫= _) = _ =>
            rewrite (load_take _ _ k) by nia;
            destruct (load inp k); simpl; [|done]
        end ].
    done.
Qed.

Lemma jacobi2d_hls_take inp out N M :
  N * M ≤ 2 ^ 31 →
  jacobi2d_hls (take (Z.to_nat (N * M)) inp) out N M = jacobi2d_hls inp out N M.
Proof.
  intros Hfit. unfold jacobi2d_hls, Col_Loop.
  apply for_int_ext. intros i t Hi.
  apply for_int_ext. intros j u Hj.
  rewrite !Col_body_write. by rewrite Col_write_take.
Qed.

Lemma cell_take inp N M i j :
  0 ≤ i < N → 0 ≤ j < M →
  cell (take (Z.to_nat (N * M)) inp) M i j = cell inp M i j.
Proof.
  intros Hi Hj. unfold cell, idx_of.
  rewrite !list_lookup_total_alt. by rewrite lookup_take_lt by nia.
Qed.

Lemma stencil_cell_take inp N M i j :
  0 ≤ i < N → 0 ≤ j < M →
  stencil_cell (take (Z.to_nat (N * M)) inp) N M i j = stencil_cell inp N M i j.
Proof.
  intros Hi Hj. unfold stencil_cell.
  destruct (decide (on_border N M i j)) as [Hb|Hb].
  - by apply cell_take.
  - unfold on_border in Hb. by rewrite !cell_take by lia.
Qed.

Lemma jacobi2d_hls_large (inp out : list float32) (N M : Z) :
  1 ≤ N → 1 ≤ M → N * M ≤ 2 ^ 31 →
  N * M ≤ Z.of_nat (length inp) → N * M ≤ Z.of_nat (length out) →
  ∃ r, jacobi2d_hls inp out N M = Ok r ∧
       length r = length out ∧
       (∀ i j, 0 ≤ i < N → 0 ≤ j < M →
          r !! idx_of M i j = Some (stencil_cell inp N M i j)) ∧
       (∀ k : nat, N * M ≤ Z.of_nat k → r !! k = out !! k).
Proof.
  intros HN HM Hfit Hinp Hout. rewrite <- jacobi2d_hls_take by done.
  destruct (jacobi2d_hls_filled (take (Z.to_nat (N * M)) inp) N M Hfit
              ltac:(rewrite length_take; lia) out HN HM Hout)
    as (r & -> & Hlen & Hr).
  exists r. split; [done|]. split; [done|]. split.
  - intros i j Hi Hj. destruct (Hr (idx_of M i j)) as [-> _].
    + by rewrite stencil_at_idx, stencil_cell_take by lia.
    + unfold idx_of. nia.
  - intros k Hk. by apply Hr.
Qed.

(** X1. On buffers of at least [N*M] cells (with [N, M ≥ 1] and
    [N*M ≤ 2^31]) the call succeeds, every cell of the grid receives its
    stencil value computed from [in], and the cells of [out] beyond the
    grid, like its length, are left as they were. *)
Theorem X1_large_buffers (inp out : list float32) (N M : Z) :
  1 ≤ N → 1 ≤ M → N * M ≤ 2 ^ 31 →
  N * M ≤ Z.of_nat (length inp) → N * M ≤ Z.of_nat (length out) →
  ∃ r, jacobi2d_hls inp out N M = Ok r ∧
       length r = length out ∧
       (∀ i j, 0 ≤ i < N → 0 ≤ j < M →
          r !! idx_of M i j = Some (stencil_cell inp N M i j)) ∧
       (∀ k : nat, N * M ≤ Z.of_nat k → r !! k = out !! k).
Proof. apply jacobi2d_hls_large. Qed.

Lemma X1_large_buffers_witness :
  ∃ r, jacobi2d_hls (grid44 ++ [FLT_MAX]) (replicate 18 f32_quarter) 4 4 = Ok r ∧
       length r = length (replicate 18 f32_quarter) ∧
       (∀ i j, 0 ≤ i < 4 → 0 ≤ j < 4 →
          r !! idx_of 4 i j = Some (stencil_cell (grid44 ++ [FLT_MAX]) 4 4 i j)) ∧
       (∀ k : nat, 4 * 4 ≤ Z.of_nat k → r !! k = replicate 18 f32_quarter !! k).
Proof.
  apply (X1_large_buffers (grid44 ++ [FLT_MAX]) (replicate 18 f32_quarter) 4 4);
    (lia || (vm_compute; discriminate)).
Defined.

(** X2. The call never looks at [in] beyond its first [N*M] cells: two
    input buffers that agree there give the same outcome, fault or
    result. *)
Theorem X2_reads_grid_only (inp1 inp2 out : list float32) (N M : Z) :
  N * M ≤ 2 ^ 31 →
  take (Z.to_nat (N * M)) inp1 = take (Z.to_nat (N * M)) inp2 →
  jacobi2d_hls inp1 out N M = jacobi2d_hls inp2 out N M.
Proof.
  intros Hfit Htake.
  rewrite <- (jacobi2d_hls_take inp1), <- (jacobi2d_hls_take inp2) by done.
  by rewrite Htake.
Qed.

Lemma X2_reads_grid_only_witness :
  jacobi2d_hls (grid44 ++ [FLT_MAX]) (replicate 16 f32_zero) 4 4
  = jacobi2d_hls (grid44 ++ [f32_one; f32_one]) (replicate 16 f32_zero) 4 4.
Proof.
  apply (X2_reads_grid_only (grid44 ++ [FLT_MAX]) (grid44 ++ [f32_one; f32_one])
           (replicate 16 f32_zero) 4 4); [lia|reflexivity].
Defined.

(** ** When the call is defined *)

Lemma for_from_Ok_reaches {St} (P : St → Prop) (body : Z → St → res St)
    lo cnt s s' :
  for_from lo cnt body s = Ok s' → P s →
  (∀ k t t', P t → body k t = Ok t' → P t') →
  P s' ∧ ∀ k, lo ≤ k < lo + Z.of_nat cnt → ∃ t t', P t ∧ body k t = Ok t'.
Proof.
  revert lo s. induction cnt as [|c IH]; intros lo s Hrun Hs Hstep.
  - simpl in Hrun. injection Hrun as <-. split; [done|]. intros k Hk. lia.
  - cbn [for_from] in Hrun. destruct (body lo s) as [t|] eqn:Hb; [|done].
    simpl in Hrun.
    destruct (IH (lo + 1) t Hrun) as [Hs' Hk]; [by eapply Hstep|done|].
    split; [done|]. intros k Hk'.
    destruct (decide (k = lo)) as [->|Hne]; [by exists s, t|].
    apply Hk. lia.
Qed.

Lemma store_inv buf idx v buf' :
  store buf idx v = Ok buf' →
  0 ≤ idx < Z.of_nat (length buf) ∧ length buf' = length buf.
Proof.
  unfold store. case_decide as H; intros E; [|discriminate].
  injection E as <-. by rewrite length_insert.
Qed.

Lemma load_inv buf idx v :
  load buf idx = Ok v → 0 ≤ idx < Z.of_nat (length buf).
Proof.
  unfold load. case_decide as H; [|discriminate].
  destruct (buf !! Z.to_nat idx) eqn:E; [|discriminate]. intros _.
  apply lookup_lt_Some in E. lia.
Qed.

Lemma lin_range M r c k : lin M r c = Ok k → INT_MIN ≤ k ≤ INT_MAX.
Proof.
  unfold lin, int_mul, int_add. intros H.
  destruct (int_ok (r * M)) as [t|]; [|done]. simpl in H.
  apply int_ok_inv in H as [-> H]. done.
Qed.

Lemma Col_body_length inp N M i j t t' :
  Col_body inp N M i j t = Ok t' → length t' = length t.
Proof.
  rewrite Col_body_write. destruct (Col_write inp N M i j) as [[k v]|]; [|done].
  simpl. intros H. by apply store_inv in H as [_ ->].
Qed.

Lemma Col_Loop_length inp N M i t t' :
  Col_Loop inp N M i t = Ok t' → length t' = length t.
Proof.
  intros H. unfold Col_Loop, for_int in H.
  apply (for_from_Ok_reaches (λ u, length u = length t)) in H as [H _]; [done..|].
  intros k u u' Hu Hb. apply Col_body_length in Hb. congruence.
Qed.

Lemma is_boundary_last_row N M j b :
  is_boundary N M (N - 1) j = Ok b → b = true.
Proof.
  unfold is_boundary, int_sub. repeat case_decide; try by intros [= <-].
  destruct (int_ok (N - 1)) as [n1|] eqn:E; [|done]. simpl.
  apply int_ok_inv in E as [-> _]. rewrite decide_True by done. by intros [= <-].
Qed.

(** The turn of the last cell succeeds only on a grid that fits the
    index type and the two buffers. *)
Lemma Col_body_last inp N M t t' :
  Col_body inp N M (N - 1) (M - 1) t = Ok t' →
  N * M ≤ 2 ^ 31 ∧ N * M ≤ Z.of_nat (length inp) ∧ N * M ≤ Z.of_nat (length t).
Proof.
  unfold Col_body. intros H.
  destruct (lin M (N - 1) (M - 1)) as [idx|] eqn:Elin; [|done]. simpl in H.
  pose proof (lin_range _ _ _ _ Elin) as Hrange.
  apply lin_inv in Elin. subst idx.
  destruct (is_boundary N M (N - 1) (M - 1)) as [b|] eqn:Eb; [|done].
  simpl in H. apply is_boundary_last_row in Eb. subst b.
  destruct (load inp _) as [v|] eqn:Eload; [|done]. simpl in H.
  apply load_inv in Eload. apply store_inv in H as [H _].
  unfold INT_MAX in Hrange. lia.
Qed.

(** X3. For [N, M ≥ 1] the call is defined exactly when [N*M ≤ 2^31] and
    both buffers hold at least [N*M] cells. *)
Theorem X3_defined_iff (inp out : list float32) (N M : Z) :
  1 ≤ N → 1 ≤ M →
  (∃ r, jacobi2d_hls inp out N M = Ok r)
  ↔ N * M ≤ 2 ^ 31 ∧
    N * M ≤ Z.of_nat (length inp) ∧ N * M ≤ Z.of_nat (length out).
Proof.
  intros HN HM. split.
  - intros [r Hr]. unfold jacobi2d_hls, for_int in Hr.
    apply (for_from_Ok_reaches (λ u, length u = length out)) in Hr
      as [_ Hrows]; [|done|]; cycle 1.
    { intros k u u' Hu Hb. apply Col_Loop_length in Hb. congruence. }
    destruct (Hrows (N - 1)) as (t & t' & Ht & Hrow); [lia|].
    unfold Col_Loop, for_int in Hrow.
    apply (for_from_Ok_reaches (λ u, length u = length out)) in Hrow
      as [_ Hcols]; [|done|]; cycle 1.
    { intros k u u' Hu Hb. apply Col_body_length in Hb. congruence. }
    destruct (Hcols (M - 1)) as (u & u' & Hu & Hcell); [lia|].
    apply Col_body_last in Hcell. rewrite Hu in Hcell. done.
  - intros (Hfit & Hinp & Hout).
    destruct (jacobi2d_hls_large inp out N M) as (r & Hr & _); [done..|]. by exists r.
Qed.

Lemma X3_defined_iff_witness :
  (∃ r, jacobi2d_hls grid44 (replicate 15 f32_zero) 4 4 = Ok r)
  ↔ 4 * 4 ≤ 2 ^ 31 ∧
    4 * 4 ≤ Z.of_nat (length grid44) ∧
    4 * 4 ≤ Z.of_nat (length (replicate 15 f32_zero)).
Proof. apply (X3_defined_iff grid44 (replicate 15 f32_zero) 4 4); lia. Defined.

(** ** The initialisation of the driver *)

Lemma for_from_app {St} (body : Z → St → res St) lo (c1 c2 : nat) s :
  for_from lo (c1 + c2)%nat body s
  = for_from lo c1 body s ≫= for_from (lo + Z.of_nat c1) c2 body.
Proof.
  revert lo s. induction c1 as [|c1 IH]; intros lo s.
  - cbn. by rewrite Z.add_0_r.
  - cbn [for_from Nat.add]. destruct (body lo s) as [t|]; [|done]. simpl.
    rewrite IH. by replace (lo + 1 + Z.of_nat c1) with (lo + Z.of_nat (S c1)) by lia.
Qed.

Lemma top_row_loop (len : nat) (M : Z) :
  M ≤ Z.of_nat len →
  for_int M (λ j a, store a j f32_one) (replicate len f32_zero)
  = Ok (replicate (Z.to_nat M) f32_one ++ replicate (len - Z.to_nat M) f32_zero).
Proof.
  intros HM. destruct (decide (M ≤ 0)) as [H0|H0].
  { rewrite for_int_nonpos by done. replace (Z.to_nat M) with O by lia.
    simpl. by rewrite Nat.sub_0_r. }
  destruct (for_int_inv
    (λ j s, s = replicate (Z.to_nat j) f32_one
                ++ replicate (len - Z.to_nat j) f32_zero)
    (λ j a, store a j f32_one) M (replicate len f32_zero))
    as (r & -> & ->); [lia| | |done].
  - simpl. by rewrite Nat.sub_0_r.
  - intros j t Hj ->. eexists. split.
    + apply store_in. rewrite length_app, !length_replicate. lia.
    + replace (Z.to_nat (j + 1)) with (S (Z.to_nat j)) by lia.
      replace (len - Z.to_nat j)%nat with (S (len - S (Z.to_nat j))) by lia.
      rewrite (replicate_S_end (Z.to_nat j) f32_one), <- app_assoc.
      rewrite insert_app_r_alt by (rewrite length_replicate; lia).
      rewrite length_replicate. replace (Z.to_nat j - Z.to_nat j)%nat with O by lia.
      done.
Qed.

Lemma init_grid_spec (a : list float32) (N M : Z) :
  init_grid a N M
  = if decide (M ≤ Z.of_nat (length a)) then
      Ok (replicate (Z.to_nat M) f32_one
          ++ replicate (length a - Z.to_nat M) f32_zero)
    else Fault OutOfBounds.
Proof.
  unfold init_grid. case_decide as HM; [by apply top_row_loop|].
  unfold for_int.
  replace (Z.to_nat M) with (length a + S (Z.to_nat M - S (length a)))%nat by lia.
  rewrite for_from_app.
  pose proof (top_row_loop (length a) (Z.of_nat (length a)) ltac:(lia)) as Hfirst.
  unfold for_int in Hfirst. rewrite Nat2Z.id in Hfirst. rewrite Hfirst.
  simpl. unfold store. rewrite decide_False; [done|].
  rewrite length_app, !length_replicate. lia.
Qed.

(** X4. [init_grid] on a buffer of [len] cells: for [M ≤ len] it leaves
    [M] ones (none when [M ≤ 0]) followed by zeros, whatever the buffer
    held and whatever [N] is; for [M > len] it writes out of bounds. *)
Theorem X4_init_grid_total (a : list float32) (N M : Z) :
  init_grid a N M
  = if decide (M ≤ Z.of_nat (length a)) then
      Ok (replicate (Z.to_nat M) f32_one
          ++ replicate (length a - Z.to_nat M) f32_zero)
    else Fault OutOfBounds.
Proof. apply init_grid_spec. Qed.

(** ** The iteration loop *)

Lemma updated_S N M T g :
  updated N M (S T) g = stencil (updated N M T g) N M.
Proof. reflexivity. Qed.

Lemma updated_border N M T g i j :
  Z.of_nat (length g) = N * M →
  0 ≤ i < N → 0 ≤ j < M → on_border N M i j →
  updated N M T g !! idx_of M i j = g !! idx_of M i j.
Proof.
  intros Hg Hi Hj Hb. induction T as [|T IH]; [done|].
  rewrite updated_S, stencil_lookup by done.
  unfold stencil_cell. rewrite decide_True by done.
  rewrite <- (cell_lookup _ N) by (rewrite ?updated_length; lia). done.
Qed.

Lemma updated_degenerate N M T g :
  Z.of_nat (length g) = N * M → 1 ≤ N → 1 ≤ M → N ≤ 2 ∨ M ≤ 2 →
  updated N M T g = g.
Proof.
  intros Hg HN HM Hdeg. induction T as [|T IH]; [done|].
  rewrite updated_S, IH. by apply stencil_degenerate.
Qed.

(** The two buffers after the loop: the grid updated [T] times and, from
    the first turn on, the grid updated [T - 1] times. *)
Lemma iterate_both N M T a b :
  1 ≤ N → 1 ≤ M → N * M ≤ 2 ^ 31 →
  length a = Z.to_nat (N * M) → length b = Z.to_nat (N * M) →
  for_int T (iterate_body N M) (a, b)
  = Ok (updated N M (Z.to_nat T) a,
        if decide (1 ≤ T) then updated N M (Z.to_nat (T - 1)) a else b).
Proof.
  intros HN HM Hfit Ha Hb.
  destruct (decide (1 ≤ T)) as [HT|HT]; [|by rewrite for_int_nonpos by lia;
    replace (Z.to_nat T) with O by lia].
  destruct (for_int_inv
    (λ t (ab : list float32 * list float32),
       ab.1 = updated N M (Z.to_nat t) a ∧
       ab.2 = (if decide (1 ≤ t) then updated N M (Z.to_nat (t - 1)) a else b))
    (iterate_body N M) T (a, b)) as ([a' b'] & -> & Ha' & Hb'); [lia|done| |].
  - intros t [x y] Ht [Hx Hy]. cbn [fst snd] in Hx, Hy. subst x.
    unfold iterate_body. cbn [fst snd].
    rewrite jacobi2d_hls_stencil; [|done|..]; cycle 1.
    { rewrite updated_length by done. nia. }
    { done. } { done. }
    { subst y. case_decide; rewrite ?updated_length by done; nia. }
    simpl. eexists. split; [done|]. cbn [fst snd]. split.
    + by replace (Z.to_nat (t + 1)) with (S (Z.to_nat t)) by lia.
    + rewrite decide_True by lia. by replace (t + 1 - 1) with t by lia.
  - cbn [fst snd] in Ha', Hb'. subst a' b'. by rewrite decide_True.
Qed.

(** X5. The iteration loop keeps the border: after any number of turns,
    every border cell of the current buffer holds the value it had before
    the loop. *)
Theorem X5_loop_keeps_border (a b : list float32) (N M T i j : Z) :
  1 ≤ N → 1 ≤ M → N * M ≤ 2 ^ 31 →
  Z.of_nat (length a) = N * M → Z.of_nat (length b) = N * M →
  0 ≤ i < N → 0 ≤ j < M → i = 0 ∨ j = 0 ∨ i = N - 1 ∨ j = M - 1 →
  ∃ a' b', for_int T (iterate_body N M) (a, b) = Ok (a', b') ∧
           a' !! idx_of M i j = a !! idx_of M i j.
Proof.
  intros HN HM Hfit Ha Hb Hi Hj Hborder.
  rewrite iterate_both by (done || lia).
  eexists _, _. split; [done|]. by apply updated_border.
Qed.

Lemma X5_loop_keeps_border_witness :
  ∃ a' b', for_int 3 (iterate_body 4 4) (grid44, replicate 16 FLT_MAX) = Ok (a', b') ∧
           a' !! idx_of 4 0 2 = grid44 !! idx_of 4 0 2.
Proof.
  apply (X5_loop_keeps_border grid44 (replicate 16 FLT_MAX) 4 4 3 0 2);
    (lia || reflexivity).
Defined.

(** X6. After [T ≥ 1] turns the first buffer holds the grid updated [T]
    times and the second the grid updated [T - 1] times; nothing of what
    the second buffer held at the start is left. *)
Theorem X6_loop_buffers (a b : list float32) (N M T : Z) :
  1 ≤ N → 1 ≤ M → N * M ≤ 2 ^ 31 → 1 ≤ T →
  Z.of_nat (length a) = N * M → Z.of_nat (length b) = N * M →
  for_int T (iterate_body N M) (a, b)
  = Ok (updated N M (Z.to_nat T) a, updated N M (Z.to_nat (T - 1)) a).
Proof.
  intros HN HM Hfit HT Ha Hb.
  rewrite iterate_both by (done || lia). by rewrite decide_True.
Qed.

Lemma X6_loop_buffers_witness :
  for_int 2 (iterate_body 4 4) (grid44, replicate 16 FLT_MAX)
  = Ok (updated 4 4 (Z.to_nat 2) grid44, updated 4 4 (Z.to_nat (2 - 1)) grid44).
Proof.
  apply (X6_loop_buffers grid44 (replicate 16 FLT_MAX) 4 4 2);
    (lia || reflexivity).
Defined.

(** ** The driver outside its intended arguments *)

Lemma run_valid N M T :
  1 ≤ N → 1 ≤ M → N * M ≤ INT_MAX →
  run N M T
  = Ok (report N M T (checksum (updated N M (Z.to_nat T) (initial_grid N M)))).
Proof.
  intros HN HM Hfit. destruct (decide (0 ≤ T)) as [HT|HT]; [by apply run_ok|].
  unfold run. rewrite int_mul_ok by int_range. simpl.
  rewrite vector_new_ok by lia. simpl.
  rewrite init_grid_ok; [|done|done|rewrite length_replicate; lia]. simpl.
  rewrite for_int_nonpos by lia. simpl.
  replace (Z.to_nat T) with O by lia.
  rewrite sum_ok; [done|]. rewrite initial_grid_length. lia.
Qed.

Lemma checksum_zeros n : checksum (replicate n f32_zero) = f64_zero.
Proof.
  unfold checksum. induction n as [|n IH]; [done|].
  rewrite replicate_S_end, foldl_app, IH. reflexivity.
Qed.

Lemma iterate_noop N M T a :
  N ≤ 0 ∨ M ≤ 0 → for_int T (iterate_body N M) (a, a) = Ok (a, a).
Proof.
  intros Hdim. destruct (decide (T ≤ 0)) as [HT|HT]; [by apply for_int_nonpos|].
  destruct (for_int_inv (λ _ ab, ab = (a, a)) (iterate_body N M) T (a, a))
    as (r & -> & ->); [lia|done| |done].
  intros t ab _ ->. unfold iterate_body. cbn [fst snd].
  rewrite jacobi2d_hls_nonpos by done. by eexists.
Qed.

(** X7. With [iters ≤ 0] the loop does not run: the driver reports the
    checksum of the starting grid. *)
Theorem X7_no_iterations (argv : list string) (N M T : Z) :
  parse_args argv = Ok (N, M, T) →
  1 ≤ N → 1 ≤ M → N * M ≤ INT_MAX → T ≤ 0 →
  main argv
  = Ok ("HLS csim done: N=" +:+ fmt_d N +:+ " M=" +:+ fmt_d M
        +:+ " iters=" +:+ fmt_d T
        +:+ " checksum=" +:+ fmt_6f (checksum (initial_grid N M)) +:+ newline).
Proof.
  intros Hargs HN HM Hfit HT. rewrite (main_run argv N M T) by done.
  rewrite run_valid by done. by replace (Z.to_nat T) with O by lia.
Qed.

Lemma X7_no_iterations_witness :
  main ["tb_jacobi_hls"; "3"; "5"; "-2"]
  = Ok ("HLS csim done: N=" +:+ fmt_d 3 +:+ " M=" +:+ fmt_d 5
        +:+ " iters=" +:+ fmt_d (-2)
        +:+ " checksum=" +:+ fmt_6f (checksum (initial_grid 3 5)) +:+ newline).
Proof.
  apply (X7_no_iterations ["tb_jacobi_hls"; "3"; "5"; "-2"] 3 5 (-2));
    [reflexivity|lia|lia|vm_compute; discriminate|lia].
Defined.

(** X8. With [N = 0] and [M ≥ 1] the buffers are empty and [init_grid]
    writes [a[0]] out of bounds: the driver prints nothing. *)
Theorem X8_zero_rows (argv : list string) (M T : Z) :
  parse_args argv = Ok (0, M, T) → 1 ≤ M →
  main argv = Fault OutOfBounds.
Proof.
  intros Hargs HM. rewrite (main_run argv 0 M T) by done.
  unfold run. rewrite int_mul_ok by (unfold INT_MIN, INT_MAX; lia).
  rewrite bind_Ok. replace (0 * M) with 0 by lia.
  change (vector_new 0) with (Ok (@nil float32)). rewrite !bind_Ok.
  rewrite init_grid_spec. rewrite decide_False; [done|]. simpl. lia.
Qed.

Lemma X8_zero_rows_witness :
  main ["tb_jacobi_hls"; "zero"; "7"] = Fault OutOfBounds.
Proof.
  apply (X8_zero_rows ["tb_jacobi_hls"; "zero"; "7"] 7 10); [reflexivity|lia].
Defined.

(** X9. When [N*M] is a negative [int] the vector constructor is asked for
    a size above [max_size()] and throws: the driver prints nothing. *)
Theorem X9_negative_size (argv : list string) (N M T : Z) :
  parse_args argv = Ok (N, M, T) → INT_MIN ≤ N * M < 0 →
  main argv = Fault LengthError.
Proof.
  intros Hargs Hsz. rewrite (main_run argv N M T) by done.
  unfold run. rewrite int_mul_ok by (unfold INT_MAX; lia). rewrite bind_Ok.
  unfold vector_new. rewrite decide_True by lia. done.
Qed.

Lemma X9_negative_size_witness :
  main ["tb_jacobi_hls"; "-4"; "4"; "1"] = Fault LengthError.
Proof.
  apply (X9_negative_size ["tb_jacobi_hls"; "-4"; "4"; "1"] (-4) 4 1);
    [reflexivity|unfold INT_MIN; lia].
Defined.

(** X10. With [M ≤ 0] and [0 ≤ N*M] an [int] (no columns, or [N] and [M]
    both negative) nothing is initialised or updated: the driver sums
    [N*M] zeros and reports [checksum=0.000000], whatever [iters] is. *)
Theorem X10_no_columns (argv : list string) (N M T : Z) :
  parse_args argv = Ok (N, M, T) → M ≤ 0 → 0 ≤ N * M ≤ INT_MAX →
  main argv
  = Ok ("HLS csim done: N=" +:+ fmt_d N +:+ " M=" +:+ fmt_d M
        +:+ " iters=" +:+ fmt_d T +:+ " checksum=0.000000" +:+ newline).
Proof.
  intros Hargs HM Hsz. rewrite (main_run argv N M T) by done.
  unfold run. rewrite int_mul_ok by (unfold INT_MIN; lia). simpl.
  rewrite vector_new_ok by lia. simpl.
  rewrite init_grid_spec. rewrite decide_True by lia. simpl.
  replace (Z.to_nat M) with O by lia. simpl.
  rewrite length_replicate, Nat.sub_0_r.
  rewrite iterate_noop by lia. simpl.
  rewrite sum_ok by (rewrite length_replicate; lia).
  by rewrite checksum_zeros.
Qed.

Lemma X10_no_columns_witness :
  main ["tb_jacobi_hls"; "-2"; "-3"; "5"]
  = Ok ("HLS csim done: N=" +:+ fmt_d (-2) +:+ " M=" +:+ fmt_d (-3)
        +:+ " iters=" +:+ fmt_d 5 +:+ " checksum=0.000000" +:+ newline).
Proof.
  apply (X10_no_columns ["tb_jacobi_hls"; "-2"; "-3"; "5"] (-2) (-3) 5);
    [reflexivity|lia|unfold INT_MAX; lia].
Defined.

(** X11. On a grid with at most two rows or two columns every update is
    the identity: the driver reports the checksum of the starting grid,
    whatever [iters] is. *)
Theorem X11_degenerate_run (argv : list string) (N M T : Z) :
  parse_args argv = Ok (N, M, T) →
  1 ≤ N → 1 ≤ M → N ≤ 2 ∨ M ≤ 2 → N * M ≤ INT_MAX →
  main argv
  = Ok ("HLS csim done: N=" +:+ fmt_d N +:+ " M=" +:+ fmt_d M
        +:+ " iters=" +:+ fmt_d T
        +:+ " checksum=" +:+ fmt_6f (checksum (initial_grid N M)) +:+ newline).
Proof.
  intros Hargs HN HM Hdeg Hfit. rewrite (main_run argv N M T) by done.
  rewrite run_valid by done.
  rewrite updated_degenerate; [done| |done..].
  rewrite initial_grid_length. lia.
Qed.

Lemma X11_degenerate_run_witness :
  main ["tb_jacobi_hls"; "2"; "6"; "4"]
  = Ok ("HLS csim done: N=" +:+ fmt_d 2 +:+ " M=" +:+ fmt_d 6
        +:+ " iters=" +:+ fmt_d 4
        +:+ " checksum=" +:+ fmt_6f (checksum (initial_grid 2 6)) +:+ newline).
Proof.
  apply (X11_degenerate_run ["tb_jacobi_hls"; "2"; "6"; "4"] 2 6 4);
    [reflexivity|lia|lia|lia|vm_compute; discriminate].
Defined.

(** ** Not-a-number cells *)

Lemma average4_nan (up down left right : float32) :
  up = S754_nan ∨ down = S754_nan ∨ left = S754_nan ∨ right = S754_nan →
  average4 up down left right = S754_nan.
Proof.
  assert (∀ x, f32_add x S754_nan = S754_nan) as Hr by (by intros []).
  assert (∀ x, f32_add S754_nan x = S754_nan) as Hl by (by intros []).
  unfold average4. intros [->|[->|[->| ->]]]; by rewrite ?Hr, ?Hl.
Qed.

(** X12. A NaN spreads: an interior cell with a NaN among its four
    neighbours in [in] is a NaN in [out]. *)
Theorem X12_nan_spreads (inp out : list float32) (N M i j : Z) :
  1 ≤ N → 1 ≤ M → N * M ≤ 2 ^ 31 →
  Z.of_nat (length inp) = N * M → Z.of_nat (length out) = N * M →
  0 < i < N - 1 → 0 < j < M - 1 →
  inp !! idx_of M (i - 1) j = Some S754_nan ∨
  inp !! idx_of M (i + 1) j = Some S754_nan ∨
  inp !! idx_of M i (j - 1) = Some S754_nan ∨
  inp !! idx_of M i (j + 1) = Some S754_nan →
  ∃ r, jacobi2d_hls inp out N M = Ok r ∧ r !! idx_of M i j = Some S754_nan.
Proof.
  intros HN HM Hfit Hinp Hout Hi Hj Hnan.
  exists (stencil inp N M). split; [by apply jacobi2d_hls_stencil|].
  rewrite stencil_lookup by lia. unfold stencil_cell.
  rewrite decide_False by (unfold on_border; lia).
  f_equal. apply average4_nan.
  rewrite !(cell_lookup inp N M) in Hnan by (done || lia).
  destruct Hnan as [H|[H|[H|H]]]; injection H; auto.
Qed.

Lemma X12_nan_spreads_witness :
  ∃ r, jacobi2d_hls (<[9%nat := S754_nan]> grid44) (replicate 16 f32_zero) 4 4 = Ok r ∧
       r !! idx_of 4 1 1 = Some S754_nan.
Proof.
  apply (X12_nan_spreads (<[9%nat := S754_nan]> grid44) (replicate 16 f32_zero) 4 4 1 1);
    try (lia || reflexivity).
  right. left. reflexivity.
Defined.

(** ** Reading back what was printed *)

Lemma string_app_assoc (s1 s2 s3 : string) :
  (s1 +:+ s2) +:+ s3 = s1 +:+ (s2 +:+ s3).
Proof.
  induction s1 as [|c s1 IH]; [done|].
  change (String c ((s1 +:+ s2) +:+ s3) = String c (s1 +:+ (s2 +:+ s3))).
  by f_equal.
Qed.

Lemma string_app_nil (s : string) : s +:+ EmptyString = s.
Proof.
  induction s as [|c s IH]; [done|].
  change (String c (s +:+ EmptyString) = String c s). by f_equal.
Qed.

Lemma digit_cases (d : Z) :
  0 ≤ d ≤ 9 →
  d = 0 ∨ d = 1 ∨ d = 2 ∨ d = 3 ∨ d = 4 ∨ d = 5 ∨ d = 6 ∨ d = 7 ∨ d = 8 ∨ d = 9.
Proof. lia. Qed.

Lemma digit_val_char (d : Z) : 0 ≤ d ≤ 9 → digit_val (digit_char d) = Some d.
Proof.
  intros H. apply digit_cases in H.
  repeat destruct H as [-> | H]; try reflexivity. by rewrite H.
Qed.

(** A text that starts with a digit is read by [atoi] as its digits. *)
Lemma atoi_digit_first (d : Z) (s : string) :
  0 ≤ d ≤ 9 →
  atoi (String (digit_char d) s) = int_ok (digits_val (String (digit_char d) s) 0).
Proof.
  intros H. apply digit_cases in H.
  repeat destruct H as [-> | H]; try reflexivity. by rewrite H.
Qed.

Lemma dec_nat_first (f : nat) (n : Z) (rest : string) :
  ∃ d s, 0 ≤ d ≤ 9 ∧ dec_nat (S f) n +:+ rest = String (digit_char d) s.
Proof.
  revert n rest. induction f as [|f IH]; intros n rest.
  - exists (n mod 10). cbn [dec_nat]. case_decide; eexists;
      (split; [pose proof (Z.mod_pos_bound n 10); lia|reflexivity]).
  - cbn [dec_nat]. case_decide as Hn.
    + exists (n mod 10). eexists.
      split; [pose proof (Z.mod_pos_bound n 10); lia|reflexivity].
    + rewrite string_app_assoc. apply IH.
Qed.

Lemma digits_val_dec_nat (fuel : nat) (n : Z) (rest : string) :
  0 ≤ n < 2 ^ Z.of_nat fuel →
  digits_val (dec_nat fuel n +:+ rest) 0 = digits_val rest n.
Proof.
  revert n rest. induction fuel as [|f IH]; intros n rest Hn.
  - change (2 ^ Z.of_nat 0) with 1 in Hn. replace n with 0 by lia. done.
  - assert (0 ≤ n mod 10 ≤ 9) as Hd by (pose proof (Z.mod_pos_bound n 10); lia).
    assert (10 * (n / 10) + n mod 10 = n) as Hdm
      by (pose proof (Z.div_mod n 10); lia).
    cbn [dec_nat]. case_decide as Hlt.
    + change (digits_val (String (digit_char (n mod 10)) rest) 0 = digits_val rest n).
      cbn [digits_val]. rewrite digit_val_char by done.
      f_equal. rewrite Z.mod_small; lia.
    + rewrite string_app_assoc. rewrite IH; cycle 1.
      { rewrite Nat2Z.inj_succ, Z.pow_succ_r in Hn by lia.
        split; [apply Z.div_pos; lia|].
        apply Z.div_lt_upper_bound; lia. }
      change (digits_val (String (digit_char (n mod 10)) rest) (n / 10)
              = digits_val rest n).
      cbn [digits_val]. rewrite digit_val_char by done. by rewrite Hdm.
Qed.

Lemma digits_val_dec_unsigned (n : Z) :
  0 ≤ n → digits_val (dec_unsigned n) 0 = n.
Proof.
  intros Hn. unfold dec_unsigned.
  rewrite <- (string_app_nil (dec_nat _ n)).
  rewrite digits_val_dec_nat; [done|].
  split; [done|]. rewrite Nat2Z.inj_succ, Z2Nat.id by apply Z.log2_nonneg.
  destruct (decide (n = 0)) as [->|H0]; [done|].
  apply Z.log2_spec. lia.
Qed.

Lemma atoi_fmt_d (n : Z) : INT_MIN ≤ n ≤ INT_MAX → atoi (fmt_d n) = Ok n.
Proof.
  intros Hn. unfold fmt_d. case_decide as Hneg.
  - change (atoi (String "-" (dec_unsigned (- n))))
      with (int_ok (- digits_val (dec_unsigned (- n)) 0)).
    rewrite digits_val_dec_unsigned by lia.
    rewrite int_ok_in by lia. f_equal. lia.
  - pose proof (digits_val_dec_unsigned n ltac:(lia)) as Hv.
    unfold dec_unsigned in *.
    destruct (dec_nat_first (Z.to_nat (Z.log2 n)) n EmptyString)
      as (d & s & Hd & Hs).
    rewrite string_app_nil in Hs. rewrite Hs in *.
    rewrite atoi_digit_first by done. rewrite Hv. by apply int_ok_in.
Qed.

(** X13. The numbers the driver prints with [%d] are read back by [atoi]:
    started again with the three numbers of its own report as arguments,
    the driver runs with the same [N], [M] and [iters]. *)
Theorem X13_arguments_round_trip (prog : string) (N M T : Z) :
  INT_MIN ≤ N ≤ INT_MAX → INT_MIN ≤ M ≤ INT_MAX → INT_MIN ≤ T ≤ INT_MAX →
  parse_args [prog; fmt_d N; fmt_d M; fmt_d T] = Ok (N, M, T).
Proof.
  intros HN HM HT. unfold parse_args. simpl.
  by rewrite !atoi_fmt_d by done.
Qed.

Lemma X13_arguments_round_trip_witness :
  parse_args ["tb_jacobi_hls"; fmt_d 1024; fmt_d (-7); fmt_d 0] = Ok (1024, -7, 0).
Proof.
  apply (X13_arguments_round_trip "tb_jacobi_hls" 1024 (-7) 0);
    unfold INT_MIN, INT_MAX; lia.
Defined.
